(** * sudopy: a 9x9 sudoku grid and its backtracking solver

    A shallow embedding of [sudopy.py].  Python integers are [Z]; Python
    lists are Rocq lists read through Python's indexing rules (negative
    indices count from the end, anything else out of range raises
    [IndexError]).  The nine row lists of a puzzle are list *objects*: the
    outer list [data] holds references to them, and two positions of
    [data] may refer to one and the same row object (as in
    [[[0]*9]*9]).  A [Puzzle] value therefore carries the row references
    together with the part of the object store they point into. *)

From Stdlib Require Import DecimalString.
From stdpp Require Import gmap list strings sorting.
Local Open Scope Z_scope.

(** ** Python primitives *)

Module Py.

Inductive exn :=
| AssertionError
| IndexError
| TypeError
| AttributeError
| InvalidMove.      (* class InvalidMove(Exception) *)

Inductive result (A : Type) :=
| Ok (a : A)
| Raise (e : exn).
Arguments Ok {A} a.
Arguments Raise {A} e.

#[global] Instance exn_eq_dec : EqDecision exn.
Proof. solve_decision. Defined.

#[global] Instance result_eq_dec `{EqDecision A} : EqDecision (result A).
Proof. solve_decision. Defined.

#[global] Instance result_ret : MRet result := λ A a, Ok a.
#[global] Instance result_bind : MBind result := λ A B f m,
  match m with
  | Ok a => f a
  | Raise e => Raise e
  end.

(** [assert b] *)
Definition assert (b : bool) : result unit :=
  if b then Ok tt else Raise AssertionError.

(** Position denoted by the index [i] in a sequence of length [n]:
    [0 .. n-1] as they are, [-n .. -1] counted from the end. *)
Definition norm_index (n : nat) (i : Z) : option nat :=
  if bool_decide (0 ≤ i < Z.of_nat n) then Some (Z.to_nat i)
  else if bool_decide (- Z.of_nat n ≤ i < 0) then Some (Z.to_nat (i + Z.of_nat n))
  else None.

(** [l[i]] *)
Definition getitem {A} (l : list A) (i : Z) : result A :=
  match norm_index (length l) i with
  | Some k => match l !! k with Some x => Ok x | None => Raise IndexError end
  | None => Raise IndexError
  end.

(** [l[i] = x], giving the list after the assignment *)
Definition setitem {A} (l : list A) (i : Z) (x : A) : result (list A) :=
  match norm_index (length l) i with
  | Some k => Ok (<[k := x]> l)
  | None => Raise IndexError
  end.

(** [range(a, b)] and [range(n)] *)
Definition range2 (a b : Z) : list Z :=
  (λ k : nat, a + Z.of_nat k) <$> seq 0 (Z.to_nat (b - a)).
Definition range (n : Z) : list Z := range2 0 n.

(** [sum(l)] *)
Definition sum (l : list Z) : Z := foldr Z.add 0 l.

End Py.
Import Py.

(** ** The puzzle object *)

Definition addr := nat.

(** [self.data] is the outer list, holding the references to the row
    objects; [heap] gives the contents of the row objects. *)
Record Puzzle := mkPuzzle {
  data : list addr;
  heap : gmap addr (list Z)
}.

(** The row object behind a reference. *)
Definition deref (self : Puzzle) (a : addr) : result (list Z) :=
  match heap self !! a with
  | Some cells => Ok cells
  | None => Raise TypeError
  end.

(** [next_rc(row, col)] *)
Definition next_rc (row col : Z) : Z * Z :=
  let col := col + 1 in
  if bool_decide (9 ≤ col) then (row + 1, col - 9) else (row, col).

(** [Puzzle.__getitem__]: [self.data[row][col]] *)
Definition __getitem__ (self : Puzzle) (coord : Z * Z) : result Z :=
  let '(row, col) := coord in
  r ← getitem (data self) row;
  cells ← deref self r;
  getitem cells col.

(** The first loop of [check_valid_move]: column and row scan, with the
    early [return False]; [Ok true] means the loop ran to its end. *)
Fixpoint scan_lines (self : Puzzle) (row col v : Z) (ks : list Z) : result bool :=
  match ks with
  | [] => Ok true
  | i :: ks =>
      x ← __getitem__ self (i, col);
      if bool_decide (x = v) then Ok false else
      y ← __getitem__ self (row, i);
      if bool_decide (y = v) then Ok false else
      scan_lines self row col v ks
  end.

(** The inner loop over [j] of the block scan. *)
Fixpoint scan_block_row (self : Puzzle) (i v : Z) (js : list Z) : result bool :=
  match js with
  | [] => Ok true
  | j :: js =>
      x ← __getitem__ self (i, j);
      if bool_decide (x = v) then Ok false else scan_block_row self i v js
  end.

(** The outer loop over [i] of the block scan. *)
Fixpoint scan_block (self : Puzzle) (sq_col v : Z) (ks : list Z) : result bool :=
  match ks with
  | [] => Ok true
  | i :: ks =>
      b ← scan_block_row self i v (range2 sq_col (sq_col + 3));
      if (b : bool) then scan_block self sq_col v ks else Ok false
  end.

(** [Puzzle.check_valid_move] *)
Definition check_valid_move (self : Puzzle) (row col v : Z) : result bool :=
  b ← scan_lines self row col v (range 9);
  if (b : bool) then
    let sq_row := row `div` 3 * 3 in
    let sq_col := col `div` 3 * 3 in
    scan_block self sq_col v (range2 sq_row (sq_row + 3))
  else Ok false.

(** The assignment [self.data[row][col] = value]: the row object that
    [self.data[row]] refers to is updated in place. *)
Definition store_cell (self : Puzzle) (row col value : Z) : result Puzzle :=
  r ← getitem (data self) row;
  cells ← deref self r;
  cells' ← setitem cells col value;
  Ok (mkPuzzle (data self) (<[r := cells']> (heap self))).

(** [Puzzle.__setitem__]: the outcome together with the puzzle object as
    it is afterwards.  The coordinate is a pair and the value an integer
    by their types, which is what the three assertions ask. *)
Definition __setitem__ (self : Puzzle) (coord : Z * Z) (value : Z)
  : result unit * Puzzle :=
  let '(row, col) := coord in
  match check_valid_move self row col value with
  | Raise e => (Raise e, self)
  | Ok false => (Raise InvalidMove, self)
  | Ok true =>
      match store_cell self row col value with
      | Ok self' => (Ok tt, self')
      | Raise e => (Raise e, self)
      end
  end.

(** [Puzzle.complete]: the two accumulator lists are updated in place,
    [l[i] += c]. *)
Definition add_at (l : list Z) (i c : Z) : result (list Z) :=
  x ← getitem l i;
  setitem l i (x + c).

(** The loop over [j]; the state is [(columnwise_sums, rowwise_sums)]. *)
Fixpoint complete_inner (self : Puzzle) (i : Z) (js : list Z)
    (sums : list Z * list Z) : result (list Z * list Z) :=
  match js with
  | [] => Ok sums
  | j :: js =>
      c ← __getitem__ self (i, j);
      rowwise_sums ← add_at sums.2 i c;
      columnwise_sums ← add_at sums.1 j c;
      complete_inner self i js (columnwise_sums, rowwise_sums)
  end.

(** The loop over [i]. *)
Fixpoint complete_outer (self : Puzzle) (ks : list Z)
    (sums : list Z * list Z) : result (list Z * list Z) :=
  match ks with
  | [] => Ok sums
  | i :: ks =>
      sums' ← complete_inner self i (range 9) sums;
      complete_outer self ks sums'
  end.

Definition all_45 (sums : list Z) : bool :=
  forallb (λ s, bool_decide (s = 45)) sums.

Definition complete (self : Puzzle) : result bool :=
  sums ← complete_outer self (range 9) (replicate 9 0, replicate 9 0);
  Ok (all_45 sums.1 && all_45 sums.2).

(** ** The solver *)

(** [deepcopy(puzzle)] builds fresh row objects with the same contents and
    the same sharing between them.  A [Puzzle] value owns its rows, so the
    copy is the value itself; what the copy buys in the source, that the
    caller's object is not touched, is that [_solve_puzzle] hands no
    updated puzzle back to its caller. *)
Definition deepcopy (puzzle : Puzzle) : Puzzle := puzzle.

(** What [_solve_puzzle] returns: a puzzle object or [False]. *)
Inductive solved :=
| Solution (p : Puzzle)
| PyFalse.

(** The body of [for i in range(9)], with the recursive call [solve_next]
    on the advanced cursor as a parameter.  The local [puzzle] is
    assigned to in place, so each candidate is written over what the
    previous candidates left in the cell.  In [if p := ...] a puzzle
    object is true (the class defines neither [__bool__] nor [__len__])
    and [False] is false. *)
Fixpoint try_candidates (solve_next : Puzzle → option (result solved))
    (row col : Z) (puzzle : Puzzle) (ks : list Z) : option (result solved) :=
  match ks with
  | [] => Some (Ok PyFalse)
  | i :: ks =>
      match __setitem__ puzzle (row, col) (i + 1) with
      | (Raise InvalidMove, puzzle) => try_candidates solve_next row col puzzle ks
      | (Raise e, _) => Some (Raise e)
      | (Ok _, puzzle) =>
          if bool_decide (row = 8) && bool_decide (col = 8)
          then Some (Ok (Solution puzzle))
          else
            match solve_next puzzle with
            | Some (Ok (Solution p)) => Some (Ok (Solution p))
            | Some (Ok PyFalse) => try_candidates solve_next row col puzzle ks
            | Some (Raise e) => Some (Raise e)
            | None => None
            end
      end
  end.

(** [_solve_puzzle(puzzle, row, col)].  [fuel] bounds the number of nested
    activations; [None] means that the bound was reached. *)
Fixpoint _solve_puzzle (fuel : nat) (puzzle : Puzzle) (row col : Z)
  : option (result solved) :=
  match fuel with
  | O => None
  | S fuel =>
      let puzzle := deepcopy puzzle in
      if bool_decide (row = 9) || bool_decide (col = 9)
      then Some (Ok (Solution puzzle))
      else
        match __getitem__ puzzle (row, col) with
        | Raise e => Some (Raise e)
        | Ok c =>
            if bool_decide (c ≠ 0)
            then _solve_puzzle fuel puzzle (next_rc row col).1 (next_rc row col).2
            else
              try_candidates
                (λ p, _solve_puzzle fuel p (next_rc row col).1 (next_rc row col).2)
                row col puzzle (range 9)
        end
  end.

(** [Puzzle.solve]: [solution.data] is an attribute access, which [False]
    does not have. *)
Definition solve (fuel : nat) (self : Puzzle) : option (result unit * Puzzle) :=
  match _solve_puzzle fuel self 0 0 with
  | None => None
  | Some (Raise e) => Some (Raise e, self)
  | Some (Ok (Solution solution)) =>
      Some (Ok tt, mkPuzzle (data solution) (heap solution))
  | Some (Ok PyFalse) => Some (Raise AttributeError, self)
  end.

(** *** The solver with its search counted

    The same function, returning next to its result two numbers: [depth],
    the longest chain of nested recursive calls made below this
    activation, and [tries], the largest number of candidate values that
    one activation (this one or one below it) has tried. *)
Record cost := mkCost { depth : nat; tries : nat }.

(** [n] candidates tried so far in this activation; [d] and [t] the
    depth and the tries of the recursive calls made so far. *)
Fixpoint try_candidates_cost
    (solve_next : Puzzle → option (result solved * cost))
    (row col : Z) (puzzle : Puzzle) (ks : list Z) (n d t : nat)
  : option (result solved * cost) :=
  match ks with
  | [] => Some (Ok PyFalse, mkCost d (n `max` t))
  | i :: ks =>
      match __setitem__ puzzle (row, col) (i + 1) with
      | (Raise InvalidMove, puzzle) =>
          try_candidates_cost solve_next row col puzzle ks (S n) d t
      | (Raise e, _) => Some (Raise e, mkCost d (S n `max` t))
      | (Ok _, puzzle) =>
          if bool_decide (row = 8) && bool_decide (col = 8)
          then Some (Ok (Solution puzzle), mkCost d (S n `max` t))
          else
            match solve_next puzzle with
            | Some (Ok (Solution p), c) =>
                Some (Ok (Solution p),
                      mkCost (d `max` S (depth c)) (S n `max` (t `max` tries c)))
            | Some (Ok PyFalse, c) =>
                try_candidates_cost solve_next row col puzzle ks (S n)
                  (d `max` S (depth c)) (t `max` tries c)
            | Some (Raise e, c) =>
                Some (Raise e,
                      mkCost (d `max` S (depth c)) (S n `max` (t `max` tries c)))
            | None => None
            end
      end
  end.

Fixpoint _solve_puzzle_cost (fuel : nat) (puzzle : Puzzle) (row col : Z)
  : option (result solved * cost) :=
  match fuel with
  | O => None
  | S fuel =>
      let puzzle := deepcopy puzzle in
      if bool_decide (row = 9) || bool_decide (col = 9)
      then Some (Ok (Solution puzzle), mkCost 0 0)
      else
        match __getitem__ puzzle (row, col) with
        | Raise e => Some (Raise e, mkCost 0 0)
        | Ok c =>
            if bool_decide (c ≠ 0)
            then
              match _solve_puzzle_cost fuel puzzle
                      (next_rc row col).1 (next_rc row col).2 with
              | Some (r, c) => Some (r, mkCost (S (depth c)) (tries c))
              | None => None
              end
            else
              try_candidates_cost
                (λ p, _solve_puzzle_cost fuel p (next_rc row col).1 (next_rc row col).2)
                row col puzzle (range 9) 0 0 0
        end
  end.

(** The depth of the call stack where the search is deepest: the number of
    activations of [_solve_puzzle] that are live there at once, the entry
    call included.  Each of them holds its own deep copy of the grid. *)
Definition activations (c : cost) : nat := S (depth c).

(** ** Construction *)

(** The argument of the constructor is an arbitrary Python value: an
    integer, a reference to a list object, or something else (a string,
    [None]).  [bool] being a subclass of [int], [True] and [False] are
    the integers 1 and 0. *)
Inductive pyval :=
| PInt (z : Z)
| PStr (s : string)
| PNone
| PRef (a : addr).

(** [isinstance(v, list)], giving the items of the list. *)
Definition as_list (st : gmap addr (list pyval)) (v : pyval) : option (list pyval) :=
  match v with
  | PRef a => st !! a
  | _ => None
  end.

(** [for i in r: assert isinstance(i, int); assert 0 <= i <= 9] *)
Fixpoint init_cells (r : list pyval) : result (list Z) :=
  match r with
  | [] => Ok []
  | i :: r =>
      match i with
      | PInt z =>
          _ ← assert (bool_decide (0 ≤ z ≤ 9));
          zs ← init_cells r;
          Ok (z :: zs)
      | _ => Raise AssertionError
      end
  end.

(** [for r in data: assert isinstance(r, list); assert len(r) == 9; ...],
    giving each row object with its (integer) contents. *)
Fixpoint init_rows (st : gmap addr (list pyval)) (rows : list pyval)
  : result (list (addr * list Z)) :=
  match rows with
  | [] => Ok []
  | r :: rows =>
      match r with
      | PRef a =>
          match st !! a with
          | Some cells =>
              _ ← assert (bool_decide (length cells = 9%nat));
              zs ← init_cells cells;
              rest ← init_rows st rows;
              Ok ((a, zs) :: rest)
          | None => Raise AssertionError
          end
      | _ => Raise AssertionError
      end
  end.

(** [Puzzle.__init__]: after the assertions, [self.data = data]; the
    puzzle refers to the very row objects of the table. *)
Definition __init__ (st : gmap addr (list pyval)) (table : pyval) : result Puzzle :=
  match as_list st table with
  | None => Raise AssertionError
  | Some rows =>
      _ ← assert (bool_decide (length rows = 9%nat));
      rs ← init_rows st rows;
      Ok (mkPuzzle rs.*1 (list_to_map rs))
  end.

(** ** Rendering *)

(** A Python string is the sequence of its code points: that is what
    [len] counts and what an index selects. *)
Module PyStr.

Abbreviation str := (list Z).

Definition ord (a : Ascii.ascii) : Z := Z.of_nat (Ascii.nat_of_ascii a).

(** [str(z)] for an integer [z]: its decimal numeral. *)
Definition str_int (z : Z) : str :=
  ord <$> String.list_ascii_of_string (NilZero.string_of_int (Z.to_int z)).

(** [str(b)] for a [bool]: ['True'] or ['False']. *)
Definition str_bool (b : bool) : str :=
  if b then [84; 114; 117; 101] else [70; 97; 108; 115; 101].

(** [l.insert(i, x)]: the item goes before position [i]; an index beyond
    either end of the list is taken to be that end. *)
Definition insert_at {A} (l : list A) (i : Z) (x : A) : list A :=
  let n := Z.of_nat (length l) in
  let k := Z.to_nat (if bool_decide (i < 0) then Z.max 0 (i + n) else Z.min i n) in
  take k l ++ x :: drop k l.

(** [sep.join(l)] *)
Fixpoint join (sep : str) (l : list str) : str :=
  match l with
  | [] => []
  | x :: l => match l with [] => x | _ => x ++ sep ++ join sep l end
  end.

End PyStr.
Import PyStr.

(** The cells as objects.  In the comparisons, the sums and the
    assertions of the other methods a [bool] is the integer it equals,
    and [Puzzle] holds the cells as integers.  [str] is the one operation
    of the class that tells the two apart: [str(True)] is ['True'], not
    ['1'].  [__str__] is therefore given on the puzzle with its cells as
    the objects they are: an [int], or one of the two [bool]s (which the
    constructor and the validated write accept as integers). *)
Inductive intobj :=
| Int (z : Z)
| Bool (b : bool).

#[global] Instance intobj_eq_dec : EqDecision intobj.
Proof. solve_decision. Defined.

(** The integer that the object is, for [==], [+] and [>]. *)
Definition int_of (o : intobj) : Z :=
  match o with
  | Int z => z
  | Bool b => if b then 1 else 0
  end.

(** [str(o)] *)
Definition str_obj (o : intobj) : str :=
  match o with
  | Int z => str_int z
  | Bool b => str_bool b
  end.

(** The puzzle object with its cells as objects, and the [Puzzle] that
    the other methods see of it. *)
Record PuzzleObj := mkPuzzleObj {
  odata : list addr;
  oheap : gmap addr (list intobj)
}.

Definition values (self : PuzzleObj) : Puzzle :=
  mkPuzzle (odata self) ((λ r : list intobj, int_of <$> r) <$> oheap self).

Definition deref_obj (self : PuzzleObj) (a : addr) : result (list intobj) :=
  match oheap self !! a with
  | Some cells => Ok cells
  | None => Raise TypeError
  end.

(** [str(c) if c > 0 else '-'] *)
Definition cell_str (c : intobj) : str :=
  if bool_decide (0 < int_of c) then str_obj c else [45].

(** The body of [Puzzle.__str__] on the contents of the rows.  The lists
    of [strdata] are new lists, one for each position of [self.data].
    The code points are 9474 for the vertical bar, 9472 for the horizontal
    bar, 9532 for the crossing, 32 for the space and 10 for the newline. *)
Definition str_rows (rows : list (list intobj)) : result str :=
  let strdata := (λ row : list intobj, cell_str <$> row) <$> rows in
  let strdata := (λ row, insert_at (insert_at row 6 [9474]) 3 [9474]) <$> strdata in
  let lines := join [32] <$> strdata in
  line ← getitem lines 0;
  let bar := replicate (length line) [9472] in
  bar ← setitem bar 6 [9532];
  bar ← setitem bar 14 [9532];
  let bar := join [] bar in
  let lines := insert_at lines 6 bar in
  let lines := insert_at lines 3 bar in
  Ok (join [10] lines).

(** [Puzzle.__str__] *)
Definition __str__ (self : PuzzleObj) : result str :=
  rows ← mapM (deref_obj self) (odata self);
  str_rows rows.

(** ** Reading a puzzle as a 9x9 table *)

Definition table (p : Puzzle) : list (list Z) :=
  (λ a, default [] (heap p !! a)) <$> data p.

(** The content of the cell in row [i], column [j], for [i], [j] in
    [0..8]. *)
Definition cell (p : Puzzle) (i j : Z) : Z :=
  default 0 (table p !! Z.to_nat i ≫= (.!! Z.to_nat j)).

(** A puzzle whose rows are nine distinct list objects with the given
    contents. *)
Definition of_table (t : list (list Z)) : Puzzle :=
  mkPuzzle (seq 0 (length t)) (list_to_map (zip (seq 0 (length t)) t)).

Definition empty_row : list Z := replicate 9 0.
Definition empty_table : list (list Z) := replicate 9 empty_row.

(** The rows and columns of the table, as lists of nine cells. *)
Definition row_cells (p : Puzzle) (i : Z) : list Z := (λ j, cell p i j) <$> range 9.
Definition col_cells (p : Puzzle) (j : Z) : list Z := (λ i, cell p i j) <$> range 9.

(** The structural invariant: nine rows of nine cells, every cell in
    [0..9]. *)
Definition shape_ok (p : Puzzle) : Prop :=
  length (data p) = 9%nat
  ∧ Forall (λ a, is_Some (heap p !! a)) (data p)
  ∧ Forall (λ r, length r = 9%nat) (table p).

Definition range_ok (p : Puzzle) : Prop :=
  Forall (Forall (λ x, 0 ≤ x ≤ 9)) (table p).

(** No row object occurs twice in [self.data]. *)
Definition distinct_rows (p : Puzzle) : Prop := NoDup (data p).

(** The cells scanned by [check_valid_move] for the target [b]: those of
    its row, of its column and of its 3x3 block, the target included. *)
Definition scanned (a b : Z * Z) : Prop :=
  a.1 = b.1 ∨ a.2 = b.2 ∨ (a.1 `div` 3 = b.1 `div` 3 ∧ a.2 `div` 3 = b.2 `div` 3).

Definition coords : list (Z * Z) := i ← range 9; j ← range 9; [(i, j)].

(** The uniqueness constraint: no digit occurs in two distinct cells of
    one row, column or block. *)
Definition consistent (p : Puzzle) : Prop :=
  Forall (λ a, Forall (λ b,
    a ≠ b → scanned a b → cell p a.1 a.2 ≠ 0 →
    cell p a.1 a.2 ≠ cell p b.1 b.2) coords) coords.

(** ** Vocabulary of the statements *)

(** The outcome of the check as a boolean expression over the cells. *)
Definition check_cells (p : Puzzle) (row col v : Z) : bool :=
  forallb (λ i, bool_decide (cell p i col ≠ v) && bool_decide (cell p row i ≠ v))
    (range 9)
  && forallb (λ i, forallb (λ j, bool_decide (cell p i j ≠ v))
                (range2 (col `div` 3 * 3) (col `div` 3 * 3 + 3)))
       (range2 (row `div` 3 * 3) (row `div` 3 * 3 + 3)).

(** The puzzle after [self.data[i][j] = v], where [a] is the row object
    at position [i] and [cells] its contents before. *)
Definition written (p : Puzzle) (a : addr) (cells : list Z) (j : nat) (v : Z) : Puzzle :=
  mkPuzzle (data p) (<[a := <[j := v]> cells]> (heap p)).

#[global] Instance scanned_dec a b : Decision (scanned a b).
Proof. unfold scanned. apply _. Defined.

(** The grid the solver finds from the empty table. *)
Definition first_solution : list (list Z) :=
  [[1; 2; 3; 4; 5; 6; 7; 8; 9]; [4; 5; 6; 7; 8; 9; 1; 2; 3];
   [7; 8; 9; 1; 2; 3; 4; 5; 6]; [2; 1; 4; 3; 6; 5; 8; 9; 7];
   [3; 6; 5; 8; 9; 7; 2; 1; 4]; [8; 9; 7; 2; 1; 4; 3; 6; 5];
   [5; 3; 1; 6; 4; 2; 9; 7; 8]; [6; 4; 2; 9; 7; 8; 5; 3; 1];
   [9; 7; 8; 5; 3; 1; 6; 4; 2]].

(** A single clue, 5 in the top left corner. *)
Definition one_clue : list (list Z) :=
  [5; 0; 0; 0; 0; 0; 0; 0; 0] :: replicate 8 empty_row.

(** No digit fits the top left cell: 1..8 are in its row, 9 in its
    column. *)
Definition dead_end : list (list Z) :=
  [0; 1; 2; 3; 4; 5; 6; 7; 8] :: [9; 0; 0; 0; 0; 0; 0; 0; 0]
  :: replicate 7 empty_row.

(** Every cell filled with the same digit. *)
Definition all_of (d : Z) : list (list Z) := replicate 9 (replicate 9 d).

(** The table [[[0]*9]*9]: one row object, referred to nine times. *)
Definition shared_rows : Puzzle := mkPuzzle (replicate 9 0%nat) {[ 0%nat := empty_row ]}.

(** The invariants are decidable, so that they can be checked on a given
    grid by evaluation. *)
#[global] Instance shape_ok_dec p : Decision (shape_ok p).
Proof. unfold shape_ok. apply _. Defined.

#[global] Instance range_ok_dec p : Decision (range_ok p).
Proof. unfold range_ok. apply _. Defined.

#[global] Instance distinct_rows_dec p : Decision (distinct_rows p).
Proof. unfold distinct_rows. apply _. Defined.

#[global] Instance consistent_dec p : Decision (consistent p).
Proof. unfold consistent. apply _. Defined.

(** [l[k] += c] on a list, as a function. *)
Definition bump (l : list Z) (k : nat) (c : Z) : list Z :=
  <[k := default 0 (l !! k) + c]> l.

(** Reading an accumulator list at an index of [0..8]. *)
Definition geti (l : list Z) (k : Z) : Z := default 0 (l !! Z.to_nat k).

(** One round of the loop body, and the two loops as folds. *)
Definition complete_step (f : Z → Z → Z) (i : Z) (sums : list Z * list Z) (j : Z)
  : list Z * list Z :=
  (bump sums.1 (Z.to_nat j) (f i j), bump sums.2 (Z.to_nat i) (f i j)).

Definition complete_row (f : Z → Z → Z) (sums : list Z * list Z) (i : Z)
  : list Z * list Z :=
  foldl (complete_step f i) sums (range 9).

(** What the assertions of [__init__] ask of the table. *)
Definition int_cell_ok (c : pyval) : Prop := ∃ z, c = PInt z ∧ 0 ≤ z ≤ 9.

Definition row_ok (st : gmap addr (list pyval)) (r : pyval) : Prop :=
  ∃ cells, as_list st r = Some cells ∧ length cells = 9%nat ∧ Forall int_cell_ok cells.

Definition table_ok (st : gmap addr (list pyval)) (t : pyval) : Prop :=
  ∃ rows, as_list st t = Some rows ∧ length rows = 9%nat ∧ Forall (row_ok st) rows.

(** The rows that a successful [init_rows] returns: the row objects of
    the table, each with the integers it holds. *)
Definition row_stored (st : gmap addr (list pyval)) (r : addr * list Z) : Prop :=
  st !! r.1 = Some (PInt <$> r.2) ∧ length r.2 = 9%nat ∧ Forall (λ z, 0 ≤ z ≤ 9) r.2.

(** A store holding the table [t] as a list of row lists: row [k] at
    address [k], the outer list at address [length t]. *)
Definition store_of (t : list (list Z)) : gmap addr (list pyval) :=
  <[length t := PRef <$> seq 0 (length t)]>
    (list_to_map (zip (seq 0 (length t)) ((λ r : list Z, PInt <$> r) <$> t))).

(** Two 5s side by side in the top row. *)
Definition two_fives : list (list Z) :=
  [5; 5; 0; 0; 0; 0; 0; 0; 0] :: replicate 8 empty_row.

(** The grids that the search keeps to: well shaped, cells in [0..9],
    nine distinct row objects, no digit twice in a row, column or block. *)
Definition solver_inv (p : Puzzle) : Prop :=
  shape_ok p ∧ range_ok p ∧ distinct_rows p ∧ consistent p.

(** Every cell before the cursor, in row-major order, is filled. *)
Definition filled_before (p : Puzzle) (row col : Z) : Prop :=
  ∀ i j, 0 ≤ i < 9 → 0 ≤ j < 9 → i < row ∨ (i = row ∧ j < col) → cell p i j ≠ 0.

(** The cursors the search visits: the 81 cells, then (9, 0). *)
Definition cursor (row col : Z) : Prop :=
  (0 ≤ row < 9 ∧ 0 ≤ col < 9) ∨ (row = 9 ∧ col = 0).

(** The digits 1..9, and the number of times a digit occurs in a list. *)
Definition digits : list Z := range2 1 10.

Definition count (d : Z) (l : list Z) : nat := length (filter (λ x, x = d) l).

(** No cell is empty. *)
Definition full (p : Puzzle) : Prop := Forall (λ a, cell p a.1 a.2 ≠ 0) coords.

(** [q] has the clues of [p] where [p] has them. *)
Definition extends (p q : Puzzle) : Prop :=
  Forall (λ a, cell p a.1 a.2 ≠ 0 → cell q a.1 a.2 = cell p a.1 a.2) coords.

(** A finished sudoku: every cell holds a digit 1..9 and no digit occurs
    twice in a row, column or block. *)
Definition finished (q : Puzzle) : Prop :=
  Forall (λ a, 1 ≤ cell q a.1 a.2 ≤ 9) coords ∧ consistent q.

(** [q] is a solution of the puzzle [p]. *)
Definition completes (p q : Puzzle) : Prop := finished q ∧ extends p q.

(** The cells of the 3x3 block in block row [bi] and block column [bj],
    for [bi], [bj] in [0..2]. *)
Definition block_coords (bi bj : Z) : list (Z * Z) :=
  i ← range2 (3 * bi) (3 * bi + 3); j ← range2 (3 * bj) (3 * bj + 3); [(i, j)].

Definition block_cells (p : Puzzle) (bi bj : Z) : list Z :=
  (λ a, cell p a.1 a.2) <$> block_coords bi bj.

(** The grid that the search returns for [one_clue], and a second finished
    grid with the same clue: the first one with the digits 1 and 2
    exchanged. *)
Definition one_clue_solution : list (list Z) :=
  [[5; 1; 2; 3; 4; 6; 7; 8; 9]; [3; 4; 6; 7; 8; 9; 1; 2; 5];
   [7; 8; 9; 1; 2; 5; 3; 4; 6]; [1; 2; 3; 4; 5; 7; 6; 9; 8];
   [4; 5; 7; 6; 9; 8; 2; 1; 3]; [6; 9; 8; 2; 1; 3; 4; 5; 7];
   [2; 3; 5; 8; 6; 1; 9; 7; 4]; [8; 6; 1; 9; 7; 4; 5; 3; 2];
   [9; 7; 4; 5; 3; 2; 8; 6; 1]].

Definition swap_1_2 (x : Z) : Z :=
  if decide (x = 1) then 2 else if decide (x = 2) then 1 else x.

Definition other_solution : list (list Z) :=
  (λ r : list Z, swap_1_2 <$> r) <$> one_clue_solution.

(** The grids compared cell by cell in row-major order: [q] and [q'] are
    the same, or [q] has the smaller digit in the first cell in which they
    differ. *)
Definition lex_le (q q' : Puzzle) : Prop :=
  (∀ i j, 0 ≤ i < 9 → 0 ≤ j < 9 → cell q i j = cell q' i j)
  ∨ ∃ i j, (0 ≤ i < 9 ∧ 0 ≤ j < 9) ∧ cell q i j < cell q' i j
      ∧ ∀ i' j', 0 ≤ i' < 9 → 0 ≤ j' < 9 → i' < i ∨ (i' = i ∧ j' < j) →
          cell q i' j' = cell q' i' j'.

(** The picture of a grid.  A cell is drawn as its digit, an empty cell
    as a dash; the cell in row [i] and column [j] is drawn at
    [cell_offset i j] of the string, which has eleven lines of 21
    characters, when no cell is the object [True]. *)
Definition glyph (c : Z) : Z := if bool_decide (0 < c) then 48 + c else 45.

Definition cell_offset (i j : Z) : nat :=
  Z.to_nat (22 * (i + i `div` 3) + 2 * (j + j `div` 3)).

(** The rows of the puzzle as lists of objects. *)
Definition otable (o : PuzzleObj) : list (list intobj) :=
  (λ a, default [] (oheap o !! a)) <$> odata o.

(** A puzzle whose rows are distinct list objects with the given items,
    and a table of integers as a table of objects. *)
Definition of_objects (t : list (list intobj)) : PuzzleObj :=
  mkPuzzleObj (seq 0 (length t)) (list_to_map (zip (seq 0 (length t)) t)).

Definition ints (t : list (list Z)) : list (list intobj) :=
  (λ r : list Z, Int <$> r) <$> t.

(** No cell is the object [True]. *)
Definition plain (o : PuzzleObj) : Prop :=
  Forall (Forall (λ c, c ≠ Bool true)) (otable o).

#[global] Instance plain_dec o : Decision (plain o).
Proof. unfold plain. apply _. Defined.

(** Nine rows of nine objects, each of them an integer in [0..9]. *)
Definition rows_ok (rows : list (list intobj)) : Prop :=
  length rows = 9%nat
  ∧ Forall (λ r, length r = 9%nat ∧ Forall (λ c, 0 ≤ int_of c ≤ 9) r) rows.

(** The line of a row, the rule under a first line of [n] characters,
    and the lines with the two rules put in. *)
Definition line_of (row : list intobj) : str :=
  join [32] (insert_at (insert_at (cell_str <$> row) 6 [9474]) 3 [9474]).

Definition bar_of (n : nat) : str :=
  join [] (<[14%nat := [9532]]> (<[6%nat := [9532]]> (replicate n [9472]))).

Definition bar_line : str :=
  replicate 6 9472 ++ 9532 :: replicate 7 9472 ++ 9532 :: replicate 6 9472.

Definition framed (bar : str) (lines : list str) : list str :=
  insert_at (insert_at lines 6 bar) 3 bar.

(** The value that a token of a line of cells stands for. *)
Definition token_value (t : str) : Z :=
  match t with
  | [c] => if bool_decide (c = 45) then 0 else c - 48
  | _ => 1
  end.

(** The empty grid with [True], and with [False], in its top left
    corner. *)
Definition true_corner : list (list intobj) :=
  (Bool true :: replicate 8 (Int 0)) :: replicate 8 (replicate 9 (Int 0)).

Definition false_corner : list (list intobj) :=
  (Bool false :: replicate 8 (Int 0)) :: replicate 8 (replicate 9 (Int 0)).

#[global] Instance full_dec p : Decision (full p).
Proof. unfold full. apply _. Defined.

#[global] Instance extends_dec p q : Decision (extends p q).
Proof. unfold extends. apply _. Defined.

#[global] Instance finished_dec q : Decision (finished q).
Proof. unfold finished. apply _. Defined.

#[global] Instance completes_dec p q : Decision (completes p q).
Proof. unfold completes. apply _. Defined.

(** * Properties *)

(** ** Python indexing *)

Section indexing.
Context {A : Type}.
Implicit Types (l : list A) (i : Z).

Lemma norm_index_nonneg n i :
  0 ≤ i < Z.of_nat n → norm_index n i = Some (Z.to_nat i).
Proof. intros H. unfold norm_index. by rewrite bool_decide_true. Qed.

Lemma norm_index_neg n i :
  - Z.of_nat n ≤ i < 0 → norm_index n i = Some (Z.to_nat (i + Z.of_nat n)).
Proof.
  intros H. unfold norm_index.
  rewrite bool_decide_false by lia. by rewrite bool_decide_true.
Qed.

Lemma norm_index_out n i :
  i < - Z.of_nat n ∨ Z.of_nat n ≤ i → norm_index n i = None.
Proof. intros H. unfold norm_index. by rewrite !bool_decide_false by lia. Qed.

Lemma norm_index_lt n i k : norm_index n i = Some k → (k < n)%nat.
Proof.
  unfold norm_index. repeat case_bool_decide; intros [= <-]; lia.
Qed.

Lemma norm_index_mod n i k :
  norm_index n i = Some k → Z.of_nat k = i `mod` Z.of_nat n.
Proof.
  unfold norm_index. repeat case_bool_decide; intros [= <-].
  - rewrite Z.mod_small by lia. lia.
  - rewrite Z2Nat.id by lia. apply (Z.mod_unique _ _ (-1)); lia.
Qed.

Lemma getitem_Ok l i x :
  getitem l i = Ok x ↔ ∃ k, norm_index (length l) i = Some k ∧ l !! k = Some x.
Proof.
  unfold getitem. split.
  - destruct (norm_index _ _) as [k|]; [|done].
    destruct (l !! k) eqn:E; [|done]. intros [= ->]. eauto.
  - intros (k & -> & ->). done.
Qed.

Lemma getitem_Raise l i e :
  getitem l i = Raise e ↔ e = IndexError ∧ norm_index (length l) i = None.
Proof.
  unfold getitem. destruct (norm_index _ _) as [k|] eqn:E.
  - apply norm_index_lt in E. destruct (lookup_lt_is_Some_2 l k E) as [x ->].
    split; [done|]. by intros [_ ?].
  - split; [by intros [= <-]|]. by intros [-> _].
Qed.

Lemma getitem_nonneg l i x :
  0 ≤ i → l !! Z.to_nat i = Some x → getitem l i = Ok x.
Proof.
  intros Hi Hx. apply getitem_Ok. exists (Z.to_nat i). split; [|done].
  apply norm_index_nonneg. apply lookup_lt_Some in Hx. lia.
Qed.

Lemma setitem_Ok l i x l' :
  setitem l i x = Ok l' ↔ ∃ k, norm_index (length l) i = Some k ∧ l' = <[k := x]> l.
Proof.
  unfold setitem. destruct (norm_index _ _) as [k|].
  - split; [intros [= <-]; eauto|]. by intros (k' & [= <-] & ->).
  - split; [done|]. by intros (k' & ? & _).
Qed.

End indexing.

Lemma elem_of_range2 a b k : k ∈ range2 a b ↔ a ≤ k < b.
Proof.
  unfold range2. rewrite list_elem_of_fmap. split.
  - intros (n & -> & Hn). apply elem_of_seq in Hn. lia.
  - intros H. exists (Z.to_nat (k - a)). split; [lia|]. apply elem_of_seq. lia.
Qed.

Lemma elem_of_range n k : k ∈ range n ↔ 0 ≤ k < n.
Proof. apply elem_of_range2. Qed.

Lemma elem_of_coords a : a ∈ coords ↔ (0 ≤ a.1 < 9) ∧ (0 ≤ a.2 < 9).
Proof.
  unfold coords. rewrite list_elem_of_bind. split.
  - intros (i & Hb & Hi). apply list_elem_of_bind in Hb as (j & Hb & Hj).
    apply list_elem_of_singleton in Hb as ->.
    apply elem_of_range in Hi, Hj. done.
  - destruct a as [i j]. intros [Hi Hj]. exists i. split; [|by apply elem_of_range].
    apply list_elem_of_bind. exists j. split; [apply list_elem_of_singleton; done|].
    by apply elem_of_range.
Qed.

(** ** Reading cells *)

Arguments range2 : simpl never.
Arguments range : simpl never.
Arguments __getitem__ : simpl never.
Arguments check_valid_move : simpl never.
Arguments store_cell : simpl never.
Arguments __setitem__ : simpl never.

Lemma table_lookup p (i : nat) a :
  data p !! i = Some a → table p !! i = Some (default [] (heap p !! a)).
Proof. intros H. unfold table. by rewrite list_lookup_fmap, H. Qed.

Lemma length_table p : length (table p) = length (data p).
Proof. unfold table. by rewrite length_fmap. Qed.

(** In a well-shaped puzzle every row index leads to a row object of nine
    cells. *)
Lemma shape_row p (i : nat) :
  shape_ok p → (i < 9)%nat →
  ∃ a cells, data p !! i = Some a ∧ heap p !! a = Some cells
             ∧ length cells = 9%nat ∧ table p !! i = Some cells.
Proof.
  intros (Hlen & Hsome & Hrows) Hi.
  destruct (lookup_lt_is_Some_2 (data p) i) as [a Ha]; [lia|].
  rewrite Forall_forall in Hsome.
  destruct (Hsome a) as [cells Hc]; [by eapply list_elem_of_lookup_2|].
  exists a, cells. pose proof (table_lookup p i a Ha) as Ht.
  rewrite Hc in Ht. simpl in Ht. repeat split; try done.
  rewrite Forall_forall in Hrows. apply Hrows. by eapply list_elem_of_lookup_2.
Qed.

Lemma cell_lookup p (i j : nat) cells :
  table p !! i = Some cells → (j < length cells)%nat →
  cells !! j = Some (cell p (Z.of_nat i) (Z.of_nat j)).
Proof.
  intros Ht Hj. unfold cell. rewrite !Nat2Z.id, Ht. simpl.
  destruct (lookup_lt_is_Some_2 cells j Hj) as [x ->]. done.
Qed.

(** What [__getitem__] does on a well-shaped puzzle, for every pair of
    integers. *)
Lemma getitem_norm p row col :
  shape_ok p →
  __getitem__ p (row, col) =
    match norm_index 9 row, norm_index 9 col with
    | Some i, Some j => Ok (cell p (Z.of_nat i) (Z.of_nat j))
    | _, _ => Raise IndexError
    end.
Proof.
  intros Hp. unfold __getitem__, getitem.
  destruct Hp as (Hlen & Hp'). rewrite Hlen.
  destruct (norm_index 9 row) as [i|] eqn:Ei; [|done].
  pose proof (norm_index_lt _ _ _ Ei) as Hi.
  destruct (shape_row p i (conj Hlen Hp') Hi) as (a & cells & Ha & Hc & Hl & Ht).
  rewrite Ha. simpl. unfold deref. rewrite Hc. simpl. rewrite Hl.
  destruct (norm_index 9 col) as [j|] eqn:Ej; [|done].
  pose proof (norm_index_lt _ _ _ Ej) as Hj.
  by rewrite (cell_lookup p i j cells Ht) by lia.
Qed.

Lemma get_cell p i j :
  shape_ok p → 0 ≤ i < 9 → 0 ≤ j < 9 → __getitem__ p (i, j) = Ok (cell p i j).
Proof.
  intros Hp Hi Hj. rewrite getitem_norm by done.
  rewrite !norm_index_nonneg by lia. by rewrite !Z2Nat.id by lia.
Qed.

(** A successful read means that both indices denote positions. *)
Lemma getitem_Ok_norm p row col x :
  shape_ok p → __getitem__ p (row, col) = Ok x →
  ∃ i j, norm_index 9 row = Some i ∧ norm_index 9 col = Some j
         ∧ x = cell p (Z.of_nat i) (Z.of_nat j).
Proof.
  intros Hp. rewrite getitem_norm by done.
  destruct (norm_index 9 row) as [i|]; [|done].
  destruct (norm_index 9 col) as [j|]; [|done].
  intros [= <-]. eauto.
Qed.

(** ** The move check *)

Lemma scan_lines_spec p row col v ks :
  shape_ok p → 0 ≤ row < 9 → 0 ≤ col < 9 →
  Forall (λ k, 0 ≤ k < 9) ks →
  scan_lines p row col v ks =
    Ok (forallb (λ i, bool_decide (cell p i col ≠ v)
                      && bool_decide (cell p row i ≠ v)) ks).
Proof.
  intros Hp Hr Hc. induction 1 as [|i ks Hi _ IH]; [done|].
  simpl. rewrite !get_cell by done. simpl.
  rewrite !bool_decide_not.
  destruct (bool_decide (cell p i col = v)); [done|].
  destruct (bool_decide (cell p row i = v)); [done|]. apply IH.
Qed.

Lemma scan_block_row_spec p i v js :
  shape_ok p → 0 ≤ i < 9 → Forall (λ k, 0 ≤ k < 9) js →
  scan_block_row p i v js = Ok (forallb (λ j, bool_decide (cell p i j ≠ v)) js).
Proof.
  intros Hp Hi. induction 1 as [|j js Hj _ IH]; [done|].
  simpl. rewrite get_cell by done. simpl.
  rewrite bool_decide_not.
  destruct (bool_decide (cell p i j = v)); [done|]. apply IH.
Qed.

Lemma scan_block_spec p sq_col v ks :
  shape_ok p → 0 ≤ sq_col ≤ 6 → Forall (λ k, 0 ≤ k < 9) ks →
  scan_block p sq_col v ks =
    Ok (forallb (λ i, forallb (λ j, bool_decide (cell p i j ≠ v))
                        (range2 sq_col (sq_col + 3))) ks).
Proof.
  intros Hp Hc. induction 1 as [|i ks Hi _ IH]; [done|].
  simpl. rewrite scan_block_row_spec; [|done..|].
  - simpl. destruct (forallb _ (range2 _ _)); [done|done].
  - apply Forall_forall. intros k Hk%elem_of_range2. lia.
Qed.

Lemma block_bounds k : 0 ≤ k < 9 → 0 ≤ k `div` 3 * 3 ≤ 6.
Proof. intros H. Z.div_mod_to_equations. lia. Qed.

Lemma block_member k i :
  k `div` 3 * 3 ≤ i < k `div` 3 * 3 + 3 ↔ i `div` 3 = k `div` 3.
Proof. Z.div_mod_to_equations. lia. Qed.

Lemma check_valid_move_cells p row col v :
  shape_ok p → 0 ≤ row < 9 → 0 ≤ col < 9 →
  check_valid_move p row col v = Ok (check_cells p row col v).
Proof.
  intros Hp Hr Hc. unfold check_valid_move, check_cells.
  rewrite scan_lines_spec; [|done..|].
  2:{ apply Forall_forall. intros k Hk%elem_of_range. lia. }
  cbn [mbind result_bind].
  match goal with |- context [forallb ?f (range 9)] => destruct (forallb f (range 9)) end;
    [|done].
  cbn [andb]. apply scan_block_spec; [done|by apply block_bounds|].
  apply Forall_forall. intros k Hk%elem_of_range2.
  pose proof (block_bounds row Hr). lia.
Qed.

Lemma forallb_range2 (f : Z → bool) a b :
  forallb f (range2 a b) = true ↔ ∀ k, a ≤ k < b → f k = true.
Proof.
  rewrite forallb_forall. split; intros H k Hk; apply H.
  - by apply list_elem_of_In, elem_of_range2.
  - by apply elem_of_range2, list_elem_of_In.
Qed.

Lemma check_cells_true p row col v :
  0 ≤ row < 9 → 0 ≤ col < 9 →
  check_cells p row col v = true ↔
  ∀ i j, 0 ≤ i < 9 → 0 ≤ j < 9 → scanned (i, j) (row, col) → cell p i j ≠ v.
Proof.
  intros Hr Hc. unfold check_cells, scanned, range. cbn [fst snd].
  pose proof (block_bounds row Hr) as Hbr. pose proof (block_bounds col Hc) as Hbc.
  rewrite andb_true_iff, !forallb_range2. split.
  - intros [Hl Hb] i j Hi Hj [->|[->|[Hbi Hbj]]].
    + specialize (Hl j Hj). apply andb_prop in Hl as [_ Hl].
      by apply bool_decide_eq_true in Hl.
    + specialize (Hl i Hi). apply andb_prop in Hl as [Hl _].
      by apply bool_decide_eq_true in Hl.
    + apply block_member in Hbi, Hbj. specialize (Hb i Hbi).
      rewrite forallb_range2 in Hb. specialize (Hb j Hbj).
      by apply bool_decide_eq_true in Hb.
  - intros H. split.
    + intros i Hi. apply andb_true_intro.
      split; apply bool_decide_eq_true; apply H; auto.
    + intros i Hi. apply forallb_range2. intros j Hj.
      apply bool_decide_eq_true. apply H; [lia..|]. right; right.
      split; by apply block_member.
Qed.

(** ** Writing a cell *)

Lemma store_cell_norm p row col v (i j : nat) :
  shape_ok p → norm_index 9 row = Some i → norm_index 9 col = Some j →
  ∃ a cells, data p !! i = Some a ∧ heap p !! a = Some cells
             ∧ length cells = 9%nat
             ∧ store_cell p row col v = Ok (written p a cells j v).
Proof.
  intros Hp Ei Ej.
  pose proof (norm_index_lt _ _ _ Ei) as Hi.
  destruct (shape_row p i Hp Hi) as (a & cells & Ha & Hc & Hl & Ht).
  exists a, cells. repeat split; try done.
  unfold store_cell, getitem, setitem, deref. destruct Hp as (Hlen & _).
  rewrite Hlen, Ei, Ha. simpl. rewrite Hc. simpl. by rewrite Hl, Ej.
Qed.

Lemma store_cell_Raise p row col v :
  shape_ok p → norm_index 9 row = None ∨ norm_index 9 col = None →
  store_cell p row col v = Raise IndexError.
Proof.
  intros Hp H. unfold store_cell, getitem, setitem, deref.
  pose proof Hp as (Hlen & _). rewrite Hlen.
  destruct (norm_index 9 row) as [i|] eqn:Ei; [|done].
  destruct H as [|Ej]; [done|].
  pose proof (norm_index_lt _ _ _ Ei) as Hi.
  destruct (shape_row p i Hp Hi) as (a & cells & Ha & Hc & Hl & Ht).
  rewrite Ha. simpl. rewrite Hc. simpl. by rewrite Hl, Ej.
Qed.

Section written.
Context (p : Puzzle) (a : addr) (cells : list Z) (j : nat) (v : Z).
Context (Hp : shape_ok p) (Hc : heap p !! a = Some cells).
Context (Hl : length cells = 9%nat).

Lemma written_table (i' : nat) a' :
  data p !! i' = Some a' →
  table (written p a cells j v) !! i' =
    Some (if decide (a' = a) then <[j := v]> cells
          else default [] (heap p !! a')).
Proof.
  intros Ha'. rewrite (table_lookup _ i' a') by done. simpl.
  destruct (decide (a' = a)) as [->|Hne].
  - by rewrite lookup_insert_eq.
  - by rewrite lookup_insert_ne.
Qed.

Lemma written_shape : shape_ok (written p a cells j v).
Proof.
  destruct Hp as (Hlen & Hsome & Hrows). split; [done|]. split.
  - simpl. rewrite Forall_forall in Hsome |- *. intros a' Ha'.
    destruct (decide (a = a')) as [->|Hne].
    + rewrite lookup_insert_eq. eauto.
    + rewrite lookup_insert_ne by done. auto.
  - rewrite Forall_forall in Hrows |- *. intros r Hr.
    apply list_elem_of_lookup in Hr as [i' Hr].
    pose proof (lookup_lt_Some _ _ _ Hr) as Hi'.
    rewrite length_table in Hi'. simpl in Hi'.
    destruct (lookup_lt_is_Some_2 (data p) i' Hi') as [a' Ha'].
    rewrite (written_table i' a' Ha') in Hr. injection Hr as <-.
    case_decide.
    + by rewrite length_insert.
    + apply Hrows. eapply list_elem_of_lookup_2. by apply table_lookup.
Qed.

Lemma written_cell (i' j' : nat) :
  (i' < 9)%nat → (j' < 9)%nat →
  cell (written p a cells j v) (Z.of_nat i') (Z.of_nat j') =
    if decide (data p !! i' = Some a ∧ j' = j) then v
    else cell p (Z.of_nat i') (Z.of_nat j').
Proof.
  intros Hi' Hj'.
  destruct (shape_row p i' Hp Hi') as (a' & cells' & Ha' & Hc' & Hl' & Ht').
  unfold cell at 1. rewrite !Nat2Z.id, (written_table i' a' Ha'). simpl.
  destruct (decide (a' = a)) as [->|Hne].
  - assert (cells' = cells) as -> by congruence.
    destruct (decide (j' = j)) as [->|Hj].
    + rewrite list_lookup_insert_eq by lia. simpl.
      rewrite decide_True; done.
    + rewrite list_lookup_insert_ne by done.
      rewrite (cell_lookup p i' j' cells Ht') by lia. simpl.
      rewrite decide_False; [done|]. by intros [_ ?].
  - rewrite Hc'. simpl. rewrite (cell_lookup p i' j' cells' Ht') by lia. simpl.
    rewrite decide_False; [done|]. intros [? _]. congruence.
Qed.

Lemma written_range :
  range_ok p → 0 ≤ v ≤ 9 → range_ok (written p a cells j v).
Proof.
  intros Hrange Hv. unfold range_ok in *.
  rewrite Forall_forall in Hrange |- *. intros r Hr.
  apply list_elem_of_lookup in Hr as [i' Hr].
  pose proof (lookup_lt_Some _ _ _ Hr) as Hi'.
  rewrite length_table in Hi'. simpl in Hi'.
  destruct (lookup_lt_is_Some_2 (data p) i' Hi') as [a' Ha'].
  rewrite (written_table i' a' Ha') in Hr. injection Hr as <-.
  case_decide as Ha.
  - subst a'. apply Forall_insert; [|done].
    pose proof (table_lookup p i' a Ha') as Ht. rewrite Hc in Ht.
    apply (Hrange cells). by eapply list_elem_of_lookup_2.
  - apply Hrange. eapply list_elem_of_lookup_2. by apply table_lookup.
Qed.

End written.

(** ** [__setitem__] in terms of the check and the store *)

Lemma setitem_unfold p row col v :
  __setitem__ p (row, col) v =
    match check_valid_move p row col v with
    | Raise e => (Raise e, p)
    | Ok false => (Raise InvalidMove, p)
    | Ok true =>
        match store_cell p row col v with
        | Ok p' => (Ok tt, p')
        | Raise e => (Raise e, p)
        end
    end.
Proof. done. Qed.

(** The only exception a read of a well-shaped puzzle raises is
    [IndexError]; the scans of [check_valid_move] inherit that. *)
Lemma getitem_Raise_Index p c e :
  shape_ok p → __getitem__ p c = Raise e → e = IndexError.
Proof.
  destruct c as [row col]. intros Hp. rewrite getitem_norm by done.
  destruct (norm_index 9 row), (norm_index 9 col); congruence.
Qed.

Lemma scan_lines_Raise p row col v ks e :
  shape_ok p → scan_lines p row col v ks = Raise e → e = IndexError.
Proof.
  intros Hp. induction ks as [|i ks IH]; [done|]. cbn [scan_lines].
  destruct (__getitem__ p (i, col)) as [x|e'] eqn:Ex; cbn [mbind result_bind].
  - case_bool_decide; [done|].
    destruct (__getitem__ p (row, i)) as [y|e''] eqn:Ey; cbn [mbind result_bind].
    + case_bool_decide; [done|]. apply IH.
    + intros [= <-]. by eapply getitem_Raise_Index.
  - intros [= <-]. by eapply getitem_Raise_Index.
Qed.

Lemma scan_block_row_Raise p i v js e :
  shape_ok p → scan_block_row p i v js = Raise e → e = IndexError.
Proof.
  intros Hp. induction js as [|j js IH]; [done|]. cbn [scan_block_row].
  destruct (__getitem__ p (i, j)) as [x|e'] eqn:Ex; cbn [mbind result_bind].
  - case_bool_decide; [done|]. apply IH.
  - intros [= <-]. by eapply getitem_Raise_Index.
Qed.

Lemma scan_block_Raise p sq_col v ks e :
  shape_ok p → scan_block p sq_col v ks = Raise e → e = IndexError.
Proof.
  intros Hp. induction ks as [|i ks IH]; [done|]. cbn [scan_block].
  destruct (scan_block_row p i v _) as [[]|e'] eqn:Ex; cbn [mbind result_bind].
  - apply IH.
  - done.
  - intros [= <-]. by eapply scan_block_row_Raise.
Qed.

Lemma check_valid_move_Raise p row col v e :
  shape_ok p → check_valid_move p row col v = Raise e → e = IndexError.
Proof.
  intros Hp. unfold check_valid_move.
  destruct (scan_lines p row col v (range 9)) as [[]|e'] eqn:Ex;
    cbn [mbind result_bind].
  - by apply scan_block_Raise.
  - done.
  - intros [= <-]. by eapply scan_lines_Raise.
Qed.

Lemma range_9 : range 9 = [0; 1; 2; 3; 4; 5; 6; 7; 8].
Proof. reflexivity. Qed.

(** A check that says yes has read [self[0, col]] and [self[row, 0]], so
    both indices denote positions. *)
Lemma check_valid_move_true_norm p row col v :
  shape_ok p → check_valid_move p row col v = Ok true →
  ∃ i j, norm_index 9 row = Some i ∧ norm_index 9 col = Some j.
Proof.
  intros Hp. unfold check_valid_move. rewrite range_9. cbn [scan_lines].
  destruct (__getitem__ p (0, col)) as [x|e] eqn:Ex; [|done].
  destruct (__getitem__ p (row, 0)) as [y|e] eqn:Ey.
  - intros _.
    apply getitem_Ok_norm in Ex as (_ & j & _ & Hj & _); [|done].
    apply getitem_Ok_norm in Ey as (i & _ & Hi & _ & _); [|done]. eauto.
  - cbn [mbind result_bind]. by case_bool_decide.
Qed.

Lemma forall_coords (P : Z → Z → Prop) :
  Forall (λ a, P a.1 a.2) coords ↔ ∀ i j, 0 ≤ i < 9 → 0 ≤ j < 9 → P i j.
Proof.
  rewrite Forall_forall. split.
  - intros H i j Hi Hj. apply (H (i, j)). by apply elem_of_coords.
  - intros H [i j] [Hi Hj]%elem_of_coords. by apply H.
Qed.

Lemma scanned_sym a b : scanned a b → scanned b a.
Proof. unfold scanned. intuition congruence. Qed.

Lemma consistent_iff p :
  consistent p ↔
  ∀ i j i' j', 0 ≤ i < 9 → 0 ≤ j < 9 → 0 ≤ i' < 9 → 0 ≤ j' < 9 →
    (i, j) ≠ (i', j') → scanned (i, j) (i', j') → cell p i j ≠ 0 →
    cell p i j ≠ cell p i' j'.
Proof.
  unfold consistent. rewrite Forall_forall. split.
  - intros H i j i' j' Hi Hj Hi' Hj'.
    specialize (H (i, j)). rewrite Forall_forall in H.
    apply (H ltac:(by apply elem_of_coords) (i', j')). by apply elem_of_coords.
  - intros H [i j] [Hi Hj]%elem_of_coords. apply Forall_forall.
    intros [i' j'] [Hi' Hj']%elem_of_coords. by apply H.
Qed.

(** ** The invariants on sample grids *)

Example shape_ok_empty : shape_ok (of_table empty_table).
Proof. compute_done. Qed.
Example consistent_first_solution : consistent (of_table first_solution).
Proof. compute_done. Qed.

(** A write that goes through is the write of [written]. *)
Lemma setitem_Ok_written p row col v p' :
  shape_ok p → __setitem__ p (row, col) v = (Ok tt, p') →
  ∃ i j a cells,
    norm_index 9 row = Some i ∧ norm_index 9 col = Some j
    ∧ data p !! i = Some a ∧ heap p !! a = Some cells ∧ length cells = 9%nat
    ∧ check_valid_move p row col v = Ok true
    ∧ p' = written p a cells j v.
Proof.
  intros Hp. rewrite setitem_unfold.
  destruct (check_valid_move p row col v) as [[]|e] eqn:Ec; [|done..].
  destruct (check_valid_move_true_norm p row col v Hp Ec) as (i & j & Hi & Hj).
  destruct (store_cell_norm p row col v i j Hp Hi Hj) as (a & cells & Ha & Hc & Hl & ->).
  intros [= <-]. exists i, j, a, cells. done.
Qed.

(** For a target on the grid, [__setitem__] either rejects the move and
    leaves the puzzle as it is, or performs the write. *)
Lemma setitem_in_range p row col v :
  shape_ok p → 0 ≤ row < 9 → 0 ≤ col < 9 →
  ∃ a cells,
    data p !! Z.to_nat row = Some a ∧ heap p !! a = Some cells
    ∧ length cells = 9%nat
    ∧ __setitem__ p (row, col) v =
        if check_cells p row col v
        then (Ok tt, written p a cells (Z.to_nat col) v)
        else (Raise InvalidMove, p).
Proof.
  intros Hp Hr Hc.
  destruct (store_cell_norm p row col v (Z.to_nat row) (Z.to_nat col) Hp)
    as (a & cells & Ha & Hcells & Hl & Hs); [by apply norm_index_nonneg..|].
  exists a, cells. repeat split; try done.
  rewrite setitem_unfold, check_valid_move_cells by done.
  destruct (check_cells p row col v); [|done]. by rewrite Hs.
Qed.

(** * The statements of the specification *)

(** ** C3: what [check_valid_move] checks *)

(** C3, counterexample.  The claim says that the content of the target
    cell is not consulted.  On the grid whose only clue is a 5 in cell
    (0,0), the digit 5 occurs in none of the other cells of row 0, column
    0 and the top left block, and yet [check_valid_move(0, 0, 5)] is
    [False]: the row and column scans run over all nine indices and read
    the target cell too. *)
Lemma check_valid_move_reads_target :
  (∀ i j, 0 ≤ i < 9 → 0 ≤ j < 9 → (i, j) ≠ (0, 0) → scanned (i, j) (0, 0) →
     cell (of_table one_clue) i j ≠ 5)
  ∧ check_valid_move (of_table one_clue) 0 0 5 = Ok false.
Proof.
  split; [|compute_done].
  apply (forall_coords (λ i j, (i, j) ≠ (0, 0) → scanned (i, j) (0, 0) →
    cell (of_table one_clue) i j ≠ 5)).
  compute_done.
Qed.

(** C3, as amended.  For a well-shaped grid and a target (row, col) with
    row, col in [0..8], [check_valid_move(row, col, v)] returns [True] iff
    [v] occurs in no cell of the target's row, column and 3x3 block (the
    block of (row div 3, col div 3)), the target cell itself included. *)
Theorem check_valid_move_spec p row col v :
  shape_ok p → 0 ≤ row < 9 → 0 ≤ col < 9 →
  ∃ b, check_valid_move p row col v = Ok b
       ∧ (b = true ↔
          ∀ i j, 0 ≤ i < 9 → 0 ≤ j < 9 → scanned (i, j) (row, col) →
            cell p i j ≠ v).
Proof.
  intros Hp Hr Hc. exists (check_cells p row col v). split.
  - by apply check_valid_move_cells.
  - by apply check_cells_true.
Qed.

Lemma check_valid_move_spec_witness :
  shape_ok (of_table one_clue)
  ∧ ∃ b, check_valid_move (of_table one_clue) 4 0 5 = Ok b
         ∧ (b = true ↔
            ∀ i j, 0 ≤ i < 9 → 0 ≤ j < 9 → scanned (i, j) (4, 0) →
              cell (of_table one_clue) i j ≠ 5).
Proof.
  split; [compute_done|].
  apply (check_valid_move_spec (of_table one_clue) 4 0 5); [compute_done|lia|lia].
Defined.

(** ** C4: reading a cell *)

(** C4, counterexample.  The claim says that a negative index makes the
    read fail.  Python counts negative list indices from the end:
    [self[-1, -1]] is the bottom right cell. *)
Lemma getitem_negative_index :
  ¬ (0 ≤ -1 ≤ 8)
  ∧ __getitem__ (of_table first_solution) (-1, -1) = Ok 2
  ∧ cell (of_table first_solution) 8 8 = 2.
Proof. split; [lia|]. split; compute_done. Qed.

(** C4, as amended.  On a well-shaped grid, [self[row, col]] returns the
    cell at (row, col) for row, col in [0..8]; for indices in [-9..8] it
    returns the cell at (row mod 9, col mod 9), the negative ones being
    counted from the end; and when row or col is below -9 or above 8 it
    raises [IndexError]. *)
Theorem getitem_spec p row col :
  shape_ok p →
  (0 ≤ row < 9 → 0 ≤ col < 9 → __getitem__ p (row, col) = Ok (cell p row col))
  ∧ (-9 ≤ row < 9 → -9 ≤ col < 9 →
       __getitem__ p (row, col) = Ok (cell p (row `mod` 9) (col `mod` 9)))
  ∧ (¬ (-9 ≤ row < 9) ∨ ¬ (-9 ≤ col < 9) →
       __getitem__ p (row, col) = Raise IndexError).
Proof.
  intros Hp. split; [|split].
  - intros. by apply get_cell.
  - intros Hr Hc. rewrite getitem_norm by done.
    destruct (norm_index 9 row) as [i|] eqn:Ei.
    2:{ unfold norm_index in Ei. repeat case_bool_decide; try done; lia. }
    destruct (norm_index 9 col) as [j|] eqn:Ej.
    2:{ unfold norm_index in Ej. repeat case_bool_decide; try done; lia. }
    by rewrite (norm_index_mod _ _ _ Ei), (norm_index_mod _ _ _ Ej).
  - intros H. rewrite getitem_norm by done.
    destruct H as [H|H].
    + rewrite (norm_index_out 9 row) by lia. done.
    + rewrite (norm_index_out 9 col) by lia. by destruct (norm_index 9 row).
Qed.

Lemma getitem_spec_witness :
  shape_ok (of_table first_solution)
  ∧ __getitem__ (of_table first_solution) (-2, 3) =
      Ok (cell (of_table first_solution) 7 3)
  ∧ __getitem__ (of_table first_solution) (9, 3) = Raise IndexError.
Proof.
  assert (shape_ok (of_table first_solution)) as Hp by compute_done.
  split; [done|].
  destruct (getitem_spec (of_table first_solution) (-2) 3 Hp) as (_ & H & _).
  destruct (getitem_spec (of_table first_solution) 9 3 Hp) as (_ & _ & H').
  split; [apply H; lia|apply H'; lia].
Defined.

(** ** C6: the validated write *)

(** C6.  On a well-shaped grid, for all integers row, col and value:
    [self[row, col] = value] raises [InvalidMove] iff
    [check_valid_move(row, col, value)] is [False], and then the grid is
    the one it was; and when the check is [True] the write succeeds and the
    value is what [self[row, col]] reads afterwards. *)
Theorem setitem_illegal_move_iff p row col value :
  shape_ok p →
  ((__setitem__ p (row, col) value).1 = Raise InvalidMove
     ↔ check_valid_move p row col value = Ok false)
  ∧ (check_valid_move p row col value = Ok false →
       __setitem__ p (row, col) value = (Raise InvalidMove, p))
  ∧ (check_valid_move p row col value = Ok true →
       ∃ p', __setitem__ p (row, col) value = (Ok tt, p')
             ∧ __getitem__ p' (row, col) = Ok value).
Proof.
  intros Hp. rewrite setitem_unfold.
  destruct (check_valid_move p row col value) as [[]|e] eqn:Ec.
  - destruct (check_valid_move_true_norm p row col value Hp Ec) as (i & j & Hi & Hj).
    destruct (store_cell_norm p row col value i j Hp Hi Hj)
      as (a & cells & Ha & Hc & Hl & ->).
    split; [done|]. split; [done|]. intros _. eexists. split; [done|].
    rewrite getitem_norm by by apply written_shape.
    rewrite Hi, Hj.
    rewrite (written_cell p a cells j value Hp Hc Hl i j)
      by (by eapply norm_index_lt).
    by rewrite decide_True.
  - done.
  - apply check_valid_move_Raise in Ec as ->; [|done]. done.
Qed.

Lemma setitem_illegal_move_iff_witness :
  shape_ok (of_table one_clue)
  ∧ __setitem__ (of_table one_clue) (0, 1) 5 = (Raise InvalidMove, of_table one_clue)
  ∧ ∃ p', __setitem__ (of_table one_clue) (0, 1) 6 = (Ok tt, p')
          ∧ __getitem__ p' (0, 1) = Ok 6.
Proof.
  assert (shape_ok (of_table one_clue)) as Hp by compute_done.
  split; [done|]. split.
  - apply (setitem_illegal_move_iff (of_table one_clue) 0 1 5 Hp). compute_done.
  - apply (setitem_illegal_move_iff (of_table one_clue) 0 1 6 Hp). compute_done.
Defined.

(** ** C10: writing 0 *)

(** C10.  On a well-shaped grid and for a target on the grid,
    [self[row, col] = 0] raises [InvalidMove] iff some cell of the
    target's row, column or block holds 0, the target itself included; so
    writing 0 into an empty cell always fails and leaves the grid as it
    is, and the write succeeds only when no cell of the row, column and
    block is empty. *)
Theorem setitem_zero p row col :
  shape_ok p → 0 ≤ row < 9 → 0 ≤ col < 9 →
  ((__setitem__ p (row, col) 0).1 = Raise InvalidMove
     ↔ ∃ i j, 0 ≤ i < 9 ∧ 0 ≤ j < 9 ∧ scanned (i, j) (row, col) ∧ cell p i j = 0)
  ∧ (cell p row col = 0 → __setitem__ p (row, col) 0 = (Raise InvalidMove, p))
  ∧ ((__setitem__ p (row, col) 0).1 = Ok tt →
       ∀ i j, 0 ≤ i < 9 → 0 ≤ j < 9 → scanned (i, j) (row, col) → cell p i j ≠ 0).
Proof.
  intros Hp Hr Hc.
  destruct (setitem_in_range p row col 0 Hp Hr Hc) as (a & cells & _ & _ & _ & ->).
  pose proof (check_cells_true p row col 0 Hr Hc) as Htrue.
  destruct (check_cells p row col 0) eqn:Eb; cbn [fst].
  - pose proof (proj1 Htrue eq_refl) as Hfree. split; [|split].
    + split; [done|]. intros (i & j & Hi & Hj & Hs & H0). by destruct (Hfree i j).
    + intros H0. destruct (Hfree row col); [done..| |done]. by left.
    + done.
  - split; [|split]; [|done..]. split; [|done]. intros _.
    destruct (decide (Exists (λ a, scanned a (row, col) ∧ cell p a.1 a.2 = 0) coords))
      as [Hex|Hnex].
    + apply Exists_exists in Hex as ([i j] & [Hi Hj]%elem_of_coords & Hs & H0).
      exists i, j. done.
    + assert (false = true) as [=]. apply Htrue.
      intros i j Hi Hj Hs H0. apply Hnex, Exists_exists. exists (i, j).
      split; [by apply elem_of_coords|done].
Qed.

Lemma setitem_zero_witness :
  shape_ok (of_table one_clue)
  ∧ __setitem__ (of_table one_clue) (5, 5) 0 = (Raise InvalidMove, of_table one_clue).
Proof.
  split; [compute_done|].
  apply (setitem_zero (of_table one_clue) 5 5); [compute_done|lia|lia|compute_done].
Defined.

(** ** C7: [complete] *)

Lemma length_bump l k c : length (bump l k c) = length l.
Proof. unfold bump. by rewrite length_insert. Qed.

Lemma add_at_bump l i c :
  0 ≤ i < Z.of_nat (length l) → add_at l i c = Ok (bump l (Z.to_nat i) c).
Proof.
  intros Hi. unfold add_at, getitem, setitem, bump.
  rewrite norm_index_nonneg by done.
  destruct (lookup_lt_is_Some_2 l (Z.to_nat i)) as [x ->]; [lia|].
  done.
Qed.

Lemma bump_geti l j k c :
  0 ≤ j < Z.of_nat (length l) → 0 ≤ k →
  geti (bump l (Z.to_nat j) c) k = geti l k + (if decide (k = j) then c else 0).
Proof.
  intros Hj Hk. unfold geti, bump. case_decide as E.
  - subst k. by rewrite list_lookup_insert_eq by lia.
  - rewrite list_lookup_insert_ne by lia. lia.
Qed.

Lemma list_9_geti l : length l = 9%nat → l = geti l <$> range 9.
Proof.
  intros Hl. do 9 (destruct l as [|? l]; [done|]).
  destruct l; [reflexivity|done].
Qed.

(** A sum that picks one term. *)
Lemma sum_pick (g : Z → Z) k l :
  NoDup l →
  sum ((λ j, if decide (j = k) then g j else 0) <$> l) =
    if decide (k ∈ l) then g k else 0.
Proof.
  induction 1 as [|x l Hx _ IH]; [done|].
  cbn [fmap list_fmap sum foldr]. fold (sum ((λ j, if decide (j = k) then g j else 0) <$> l)).
  rewrite IH. destruct (decide (x = k)) as [->|Hne].
  - destruct (decide (k ∈ k :: l)) as [_|Hn]; [|exfalso; apply Hn; left].
    destruct (decide (k ∈ l)); [done|lia].
  - destruct (decide (k ∈ l)) as [Hin|Hnin].
    + destruct (decide (k ∈ x :: l)) as [_|Hn]; [lia|]. exfalso. apply Hn. by right.
    + destruct (decide (k ∈ x :: l)) as [[->|?]%elem_of_cons|_]; [done..|lia].
Qed.

Lemma NoDup_range n : NoDup (range n).
Proof.
  unfold range, range2. apply NoDup_fmap_2; [|apply NoDup_seq].
  intros x y. lia.
Qed.

Lemma complete_inner_fold p i js cs rs :
  shape_ok p → 0 ≤ i < 9 → Forall (λ j, 0 ≤ j < 9) js →
  length cs = 9%nat → length rs = 9%nat →
  complete_inner p i js (cs, rs) = Ok (foldl (complete_step (cell p) i) (cs, rs) js).
Proof.
  intros Hp Hi Hjs. revert cs rs.
  induction Hjs as [|j js Hj _ IH]; intros cs rs Hcs Hrs; [done|].
  cbn [complete_inner foldl]. rewrite get_cell by done.
  cbn [mbind result_bind fst snd].
  rewrite !add_at_bump by lia. cbn [mbind result_bind].
  apply IH; by rewrite length_bump.
Qed.

(** What the loop over [j] adds to the two accumulators. *)
Lemma complete_step_fold f i js cs rs :
  0 ≤ i < 9 → Forall (λ j, 0 ≤ j < 9) js →
  length cs = 9%nat → length rs = 9%nat →
  let sums := foldl (complete_step f i) (cs, rs) js in
  length sums.1 = 9%nat ∧ length sums.2 = 9%nat
  ∧ (∀ k, 0 ≤ k →
       geti sums.1 k = geti cs k + sum ((λ j, if decide (j = k) then f i j else 0) <$> js))
  ∧ (∀ k, 0 ≤ k →
       geti sums.2 k = geti rs k + if decide (k = i) then sum (f i <$> js) else 0).
Proof.
  intros Hi Hjs. revert cs rs.
  induction Hjs as [|j js Hj _ IH]; intros cs rs Hcs Hrs.
  - cbn. repeat split; try done; intros k Hk; [lia|case_decide; lia].
  - cbn [foldl]. unfold complete_step at 2. cbn [fst snd].
    destruct (IH (bump cs (Z.to_nat j) (f i j)) (bump rs (Z.to_nat i) (f i j)))
      as (Hl1 & Hl2 & Hc & Hr); [by rewrite length_bump..|].
    split; [done|]. split; [done|]. split.
    + intros k Hk. rewrite Hc, bump_geti by lia.
      cbn [fmap list_fmap sum foldr].
      fold (sum ((λ j0, if decide (j0 = k) then f i j0 else 0) <$> js)).
      destruct (decide (k = j)) as [->|Hne].
      * rewrite decide_True by done. lia.
      * rewrite decide_False by done. lia.
    + intros k Hk. rewrite Hr, bump_geti by lia.
      cbn [fmap list_fmap sum foldr]. fold (sum (f i <$> js)).
      case_decide; lia.
Qed.

Lemma complete_outer_fold p ks cs rs :
  shape_ok p → Forall (λ i, 0 ≤ i < 9) ks →
  length cs = 9%nat → length rs = 9%nat →
  complete_outer p ks (cs, rs) = Ok (foldl (complete_row (cell p)) (cs, rs) ks).
Proof.
  intros Hp Hks. revert cs rs.
  induction Hks as [|i ks Hi _ IH]; intros cs rs Hcs Hrs; [done|].
  cbn [complete_outer foldl].
  assert (Forall (λ j, 0 ≤ j < 9) (range 9)) as Hrange.
  { apply Forall_forall. by intros k Hk%elem_of_range. }
  rewrite complete_inner_fold by done. cbn [mbind result_bind].
  destruct (complete_step_fold (cell p) i (range 9) cs rs) as (Hl1 & Hl2 & _); try done.
  fold (complete_row (cell p) (cs, rs) i) in *.
  destruct (complete_row (cell p) (cs, rs) i) as [cs' rs']. by apply IH.
Qed.

(** What the loop over [i] adds to the two accumulators. *)
Lemma complete_row_fold f ks cs rs :
  Forall (λ i, 0 ≤ i < 9) ks →
  length cs = 9%nat → length rs = 9%nat →
  let sums := foldl (complete_row f) (cs, rs) ks in
  length sums.1 = 9%nat ∧ length sums.2 = 9%nat
  ∧ (∀ k, 0 ≤ k < 9 → geti sums.1 k = geti cs k + sum ((λ i, f i k) <$> ks))
  ∧ (∀ k, 0 ≤ k < 9 →
       geti sums.2 k =
         geti rs k + sum ((λ i, if decide (i = k) then sum (f i <$> range 9) else 0) <$> ks)).
Proof.
  intros Hks. revert cs rs.
  assert (Forall (λ j, 0 ≤ j < 9) (range 9)) as Hrange.
  { apply Forall_forall. by intros k Hk%elem_of_range. }
  induction Hks as [|i ks Hi _ IH]; intros cs rs Hcs Hrs.
  - cbn. repeat split; try done; intros k Hk; lia.
  - cbn [foldl].
    destruct (complete_step_fold f i (range 9) cs rs) as (Hl1 & Hl2 & Hc & Hr); try done.
    fold (complete_row f (cs, rs) i) in *.
    destruct (complete_row f (cs, rs) i) as [cs' rs']. cbn [fst snd] in *.
    destruct (IH cs' rs' Hl1 Hl2) as (Hl1' & Hl2' & Hc' & Hr').
    split; [done|]. split; [done|]. split.
    + intros k Hk. rewrite Hc', Hc by lia.
      rewrite sum_pick by apply NoDup_range.
      rewrite decide_True by by apply elem_of_range.
      cbn [fmap list_fmap sum foldr]. fold (sum ((λ i0, f i0 k) <$> ks)). lia.
    + intros k Hk. rewrite Hr', Hr by lia.
      cbn [fmap list_fmap sum foldr].
      fold (sum ((λ i0, if decide (i0 = k) then sum (f i0 <$> range 9) else 0) <$> ks)).
      destruct (decide (k = i)) as [->|Hne].
      * rewrite decide_True by done. lia.
      * rewrite decide_False by done. lia.
Qed.

Lemma geti_zeros k : geti (replicate 9 0) k = 0.
Proof.
  unfold geti. destruct (replicate 9 0 !! Z.to_nat k) as [x|] eqn:E; [|done].
  by apply lookup_replicate in E as [-> _].
Qed.

Lemma all_45_fmap (g : Z → Z) :
  all_45 (g <$> range 9) = true ↔ ∀ k, 0 ≤ k < 9 → g k = 45.
Proof.
  unfold all_45. rewrite forallb_forall. split.
  - intros H k Hk. eapply bool_decide_eq_true_1, H, list_elem_of_In.
    apply list_elem_of_fmap. exists k. split; [done|]. by apply elem_of_range.
  - intros H x Hx%list_elem_of_In. apply list_elem_of_fmap in Hx as (k & -> & Hk).
    apply bool_decide_eq_true_2, H. by apply elem_of_range.
Qed.

(** The two lists that [complete] compares with 45 hold the column sums
    and the row sums. *)
Lemma complete_sums p :
  shape_ok p →
  ∃ cs rs, complete p = Ok (all_45 cs && all_45 rs)
           ∧ length cs = 9%nat ∧ length rs = 9%nat
           ∧ (∀ k, 0 ≤ k < 9 → geti cs k = sum (col_cells p k))
           ∧ (∀ k, 0 ≤ k < 9 → geti rs k = sum (row_cells p k)).
Proof.
  intros Hp. unfold complete.
  assert (Forall (λ j, 0 ≤ j < 9) (range 9)) as Hrange.
  { apply Forall_forall. by intros k Hk%elem_of_range. }
  rewrite complete_outer_fold by done. cbn [mbind result_bind].
  destruct (complete_row_fold (cell p) (range 9) (replicate 9 0) (replicate 9 0))
    as (Hl1 & Hl2 & Hc & Hr); try done.
  destruct (foldl _ _ _) as [cs rs]. cbn [fst snd] in *.
  exists cs, rs. repeat split; try done.
  - intros k Hk. rewrite Hc, geti_zeros by done. done.
  - intros k Hk. rewrite Hr, geti_zeros by done.
    rewrite sum_pick by apply NoDup_range.
    rewrite decide_True by by apply elem_of_range. done.
Qed.

(** C7.  For every well-shaped grid, however it was reached,
    [complete()] returns [True] iff each of the nine rows sums to 45 and
    each of the nine columns sums to 45.  Nothing else is checked: the
    grid filled with 5s, which repeats its digit in every row, column and
    block, is complete. *)
Theorem complete_spec :
  (∀ p, shape_ok p →
     ∃ b, complete p = Ok b
          ∧ (b = true ↔
             (∀ i, 0 ≤ i < 9 → sum (row_cells p i) = 45)
             ∧ (∀ j, 0 ≤ j < 9 → sum (col_cells p j) = 45)))
  ∧ (shape_ok (of_table (all_of 5)) ∧ range_ok (of_table (all_of 5))
     ∧ ¬ consistent (of_table (all_of 5))
     ∧ complete (of_table (all_of 5)) = Ok true).
Proof.
  split.
  - intros p Hp.
    destruct (complete_sums p Hp) as (cs & rs & -> & Hl1 & Hl2 & Hc & Hr).
    eexists. split; [done|].
    rewrite andb_true_iff, (list_9_geti cs Hl1), (list_9_geti rs Hl2), !all_45_fmap.
    split.
    + intros [H1 H2]. split; intros k Hk; [rewrite <- Hr|rewrite <- Hc]; auto.
    + intros [H1 H2]. split; intros k Hk; [rewrite Hc|rewrite Hr]; auto.
  - repeat split; compute_done.
Qed.

Lemma complete_spec_witness :
  shape_ok (of_table first_solution)
  ∧ ∃ b, complete (of_table first_solution) = Ok b
         ∧ (b = true ↔
            (∀ i, 0 ≤ i < 9 → sum (row_cells (of_table first_solution) i) = 45)
            ∧ (∀ j, 0 ≤ j < 9 → sum (col_cells (of_table first_solution) j) = 45)).
Proof.
  split; [compute_done|].
  apply (proj1 complete_spec (of_table first_solution)). compute_done.
Defined.

(** ** C8: construction *)

Lemma init_cells_total r :
  (∃ zs, init_cells r = Ok zs ∧ r = PInt <$> zs ∧ Forall (λ z, 0 ≤ z ≤ 9) zs
         ∧ Forall int_cell_ok r)
  ∨ (init_cells r = Raise AssertionError ∧ ¬ Forall int_cell_ok r).
Proof.
  induction r as [|c r IH].
  - left. exists []. by repeat split.
  - cbn [init_cells]. destruct c as [z| | |];
      try (right; split; [done|]; intros [(? & ? & _) _]%Forall_cons; done).
    destruct (decide (0 ≤ z ≤ 9)) as [Hz|Hz].
    + rewrite bool_decide_eq_true_2 by done. cbn [assert mbind result_bind].
      destruct IH as [(zs & -> & -> & Hzs & Hr)|[-> Hr]]; cbn [mbind result_bind].
      * left. exists (z :: zs). repeat split; try done; constructor; try done.
        by exists z.
      * right. split; [done|]. by intros [_ ?]%Forall_cons.
    + rewrite bool_decide_eq_false_2 by done. right. split; [done|].
      intros [(z' & [= <-] & ?) _]%Forall_cons. done.
Qed.

Lemma init_rows_total st rows :
  (∃ rs, init_rows st rows = Ok rs ∧ rows = PRef <$> rs.*1
         ∧ Forall (row_stored st) rs ∧ Forall (row_ok st) rows)
  ∨ (init_rows st rows = Raise AssertionError ∧ ¬ Forall (row_ok st) rows).
Proof.
  induction rows as [|r rows IH].
  - left. exists []. by repeat split.
  - cbn [init_rows]. destruct r as [| | |a];
      try (right; split; [done|]; intros [(? & ? & _) _]%Forall_cons; done).
    destruct (st !! a) as [cells|] eqn:Ea.
    2:{ right. split; [done|]. intros [(? & Hl & _) _]%Forall_cons.
        simpl in Hl. congruence. }
    destruct (decide (length cells = 9%nat)) as [Hl|Hl].
    2:{ rewrite bool_decide_eq_false_2 by done. right. split; [done|].
        intros [(? & Hl' & ? & _) _]%Forall_cons. simpl in Hl'. congruence. }
    rewrite bool_decide_eq_true_2 by done. cbn [assert mbind result_bind].
    destruct (init_cells_total cells) as [(zs & -> & -> & Hzs & Hc)|[-> Hc]];
      cbn [mbind result_bind].
    2:{ right. split; [done|]. intros [(? & Hl' & _ & ?) _]%Forall_cons.
        simpl in Hl'. congruence. }
    destruct IH as [(rs & -> & -> & Hrs & Hr)|[-> Hr]]; cbn [mbind result_bind].
    + left. exists ((a, zs) :: rs). repeat split; try done.
      * constructor; [|done]. repeat split; try done.
        cbn [snd]. by rewrite length_fmap in Hl.
      * constructor; [|done]. by exists (PInt <$> zs).
    + right. split; [done|]. by intros [_ ?]%Forall_cons.
Qed.

(** The heap built from the rows gives each row object its integers, also
    when one row object occurs at several positions. *)
Lemma stored_lookup st rs a :
  Forall (row_stored st) rs → a ∈ rs.*1 →
  ∃ zs, (list_to_map rs : gmap addr (list Z)) !! a = Some zs ∧ row_stored st (a, zs).
Proof.
  intros Hrs Ha.
  destruct (list_to_map rs !! a) as [zs|] eqn:E.
  - exists zs. split; [done|]. apply elem_of_list_to_map_2 in E.
    rewrite Forall_forall in Hrs. by apply Hrs in E.
  - by apply not_elem_of_list_to_map in E.
Qed.

Lemma init_Ok st t p :
  __init__ st t = Ok p →
  ∃ rs, as_list st t = Some (PRef <$> rs.*1) ∧ length rs = 9%nat
        ∧ Forall (row_stored st) rs ∧ p = mkPuzzle rs.*1 (list_to_map rs).
Proof.
  unfold __init__. destruct (as_list st t) as [rows|] eqn:Et; [|done].
  destruct (decide (length rows = 9%nat)) as [Hl|Hl].
  2:{ by rewrite bool_decide_eq_false_2 by done. }
  rewrite bool_decide_eq_true_2 by done. cbn [assert mbind result_bind].
  destruct (init_rows_total st rows) as [(rs & -> & -> & Hrs & _)|[-> _]];
    cbn [mbind result_bind]; [|done].
  intros [= <-]. exists rs. repeat split; try done.
  by rewrite !length_fmap in Hl.
Qed.

Lemma init_total st t :
  (∃ p, __init__ st t = Ok p ∧ table_ok st t)
  ∨ (__init__ st t = Raise AssertionError ∧ ¬ table_ok st t).
Proof.
  unfold __init__, table_ok. destruct (as_list st t) as [rows|] eqn:Et.
  2:{ right. split; [done|]. by intros (? & ? & _). }
  destruct (decide (length rows = 9%nat)) as [Hl|Hl].
  2:{ rewrite bool_decide_eq_false_2 by done. right. split; [done|].
      intros (? & [= <-] & ? & _). done. }
  rewrite bool_decide_eq_true_2 by done. cbn [assert mbind result_bind].
  destruct (init_rows_total st rows) as [(rs & -> & -> & Hrs & Hr)|[-> Hr]];
    cbn [mbind result_bind].
  - left. eexists. split; [done|]. eauto.
  - right. split; [done|]. intros (? & [= <-] & _ & ?). done.
Qed.

(** Construction establishes the structural invariant. *)
Lemma init_invariant st t p : __init__ st t = Ok p → shape_ok p ∧ range_ok p.
Proof.
  intros (rs & _ & Hl & Hrs & ->)%init_Ok.
  assert (∀ r, r ∈ table (mkPuzzle rs.*1 (list_to_map rs)) →
            length r = 9%nat ∧ Forall (λ z, 0 ≤ z ≤ 9) r) as Hrows.
  { intros r (a & -> & Ha)%list_elem_of_fmap. cbn [data heap] in *.
    destruct (stored_lookup st rs a Hrs Ha) as (zs & -> & _ & ? & ?). done. }
  split; [split; [|split]|].
  - cbn. by rewrite length_fmap.
  - cbn. apply Forall_forall. intros a Ha.
    destruct (stored_lookup st rs a Hrs Ha) as (zs & -> & _). eauto.
  - apply Forall_forall. intros r Hr. by apply Hrows.
  - apply Forall_forall. intros r Hr. by apply Hrows.
Qed.

(** C8.  Construction fails, with an [AssertionError], iff the table is
    not a list of exactly nine rows, each a list of exactly nine integers
    in [0..9], and it fails in no other way.  On success the puzzle holds
    the very row objects of the table with their contents, and nothing
    more was checked: the table with two 5s side by side in its top row is
    constructed. *)
Theorem init_spec :
  (∀ st t,
     (__init__ st t = Raise AssertionError ↔ ¬ table_ok st t)
     ∧ (∀ e, __init__ st t = Raise e → e = AssertionError)
     ∧ (∀ p, __init__ st t = Ok p →
          as_list st t = Some (PRef <$> data p)
          ∧ ∀ a, a ∈ data p →
              ∃ zs, heap p !! a = Some zs ∧ st !! a = Some (PInt <$> zs)))
  ∧ (∃ p, __init__ (store_of two_fives) (PRef 9%nat) = Ok p
          ∧ table p = two_fives ∧ ¬ consistent p).
Proof.
  split.
  - intros st t. split; [|split].
    + destruct (init_total st t) as [(p & Hp & Hok)|[Hr Hnok]].
      * rewrite Hp. split; [done|]. intros Hn. by destruct Hn.
      * done.
    + intros e He. destruct (init_total st t) as [(p & Hp & _)|[Hr _]]; congruence.
    + intros p (rs & Ht & _ & Hrs & ->)%init_Ok. split; [done|].
      intros a Ha. cbn [data heap] in *.
      destruct (stored_lookup st rs a Hrs Ha) as (zs & -> & Hst & _). eauto.
  - eexists. split; [vm_compute; reflexivity|]. split; compute_done.
Qed.

Lemma init_spec_witness :
  ¬ table_ok (store_of (replicate 8 empty_row)) (PRef 8%nat).
Proof.
  apply (proj1 init_spec (store_of (replicate 8 empty_row)) (PRef 8%nat)).
  vm_compute. reflexivity.
Defined.

(** ** C1: the structural invariant *)

(** C1, counterexample.  The claim says that a successful write keeps
    every cell in [0..9].  [__setitem__] asserts that the value is an
    integer and checks it for duplicates, but not for its range: on the
    empty grid, [self[0, 0] = 10] succeeds and stores 10. *)
Lemma setitem_accepts_10 :
  shape_ok (of_table empty_table) ∧ range_ok (of_table empty_table)
  ∧ (__setitem__ (of_table empty_table) (0, 0) 10).1 = Ok tt
  ∧ cell (__setitem__ (of_table empty_table) (0, 0) 10).2 0 0 = 10
  ∧ ¬ range_ok (__setitem__ (of_table empty_table) (0, 0) 10).2.
Proof. repeat split; compute_done. Qed.

(** C1, as amended.  A constructed grid has nine rows of nine cells, each
    in [0..9].  Every write [self[row, col] = value] that succeeds on such
    a grid leaves a grid of nine rows of nine cells, and every cell of it
    is in [0..9] provided [value] is; the write itself does not check the
    range of [value]. *)
Theorem structural_invariant :
  (∀ st t p, __init__ st t = Ok p → shape_ok p ∧ range_ok p)
  ∧ (∀ p row col value p',
       shape_ok p → range_ok p →
       __setitem__ p (row, col) value = (Ok tt, p') →
       shape_ok p' ∧ (0 ≤ value ≤ 9 → range_ok p')).
Proof.
  split; [apply init_invariant|].
  intros p row col value p' Hp Hrange Hset.
  apply setitem_Ok_written in Hset
    as (i & j & a & cells & _ & _ & _ & Hc & Hl & _ & ->); [|done].
  split.
  - by apply written_shape.
  - intros Hv. by apply written_range.
Qed.

Lemma structural_invariant_witness :
  shape_ok (__setitem__ (of_table one_clue) (0, 1) 6).2
  ∧ range_ok (__setitem__ (of_table one_clue) (0, 1) 6).2.
Proof.
  destruct (__setitem__ (of_table one_clue) (0, 1) 6) as [r p'] eqn:E.
  assert (r = Ok tt) as -> by (revert E; vm_compute; congruence).
  destruct (proj2 structural_invariant (of_table one_clue) 0 1 6 p')
    as [Hs Hr]; [compute_done|compute_done|exact E|].
  split; [exact Hs|apply Hr; lia].
Defined.

(** ** The solver: what a search step preserves *)

Lemma next_rc_spec row col :
  0 ≤ col < 9 →
  next_rc row col = if decide (col = 8) then (row + 1, 0) else (row, col + 1).
Proof.
  intros Hc. unfold next_rc. case_decide as E.
  - subst. by rewrite bool_decide_eq_true_2 by lia.
  - by rewrite bool_decide_eq_false_2 by lia.
Qed.

Lemma next_rc_cursor row col :
  0 ≤ row < 9 → 0 ≤ col < 9 → cursor (next_rc row col).1 (next_rc row col).2.
Proof.
  intros Hr Hc. rewrite next_rc_spec by done. unfold cursor.
  case_decide; cbn [fst snd]; lia.
Qed.

Lemma cell_range p i j :
  shape_ok p → range_ok p → 0 ≤ i < 9 → 0 ≤ j < 9 → 0 ≤ cell p i j ≤ 9.
Proof.
  intros Hp Hrange Hi Hj.
  destruct (shape_row p (Z.to_nat i) Hp) as (a & cells & _ & _ & Hl & Ht); [lia|].
  pose proof (cell_lookup p (Z.to_nat i) (Z.to_nat j) cells Ht) as Hc.
  rewrite !Z2Nat.id in Hc by lia. unfold range_ok in Hrange.
  rewrite Forall_forall in Hrange.
  assert (Forall (λ x, 0 ≤ x ≤ 9) cells) as Hcells.
  { apply Hrange. by eapply list_elem_of_lookup_2. }
  rewrite Forall_forall in Hcells. apply Hcells.
  eapply list_elem_of_lookup_2. apply Hc. lia.
Qed.

(** With distinct row objects a write changes the target cell only. *)
Lemma written_cell_distinct p row col v a cells i j :
  shape_ok p → distinct_rows p →
  0 ≤ row < 9 → 0 ≤ col < 9 → 0 ≤ i < 9 → 0 ≤ j < 9 →
  data p !! Z.to_nat row = Some a → heap p !! a = Some cells →
  length cells = 9%nat →
  cell (written p a cells (Z.to_nat col) v) i j =
    if decide (i = row ∧ j = col) then v else cell p i j.
Proof.
  intros Hp Hnd Hr Hc Hi Hj Ha Hcells Hl.
  rewrite <- (Z2Nat.id i), <- (Z2Nat.id j) by lia.
  rewrite (written_cell p a cells (Z.to_nat col) v Hp Hcells Hl) by lia.
  rewrite !Z2Nat.id by lia.
  destruct (decide (i = row ∧ j = col)) as [[-> ->]|Hne].
  - by rewrite decide_True.
  - rewrite decide_False; [done|]. intros [Hd Hjc]. apply Hne.
    split; [|lia].
    pose proof (NoDup_lookup _ _ _ _ Hnd Hd Ha). lia.
Qed.

(** A write that passed the check keeps the search invariant. *)
Lemma written_inv p row col v a cells :
  solver_inv p → 0 ≤ row < 9 → 0 ≤ col < 9 → 0 ≤ v ≤ 9 →
  data p !! Z.to_nat row = Some a → heap p !! a = Some cells →
  length cells = 9%nat →
  check_cells p row col v = true →
  solver_inv (written p a cells (Z.to_nat col) v).
Proof.
  intros (Hp & Hrange & Hnd & Hcons) Hr Hc Hv Ha Hcells Hl Hcheck.
  split; [by apply written_shape|]. split; [by apply written_range|].
  split; [done|].
  rewrite check_cells_true in Hcheck by done.
  rewrite consistent_iff in Hcons |- *.
  intros i j i' j' Hi Hj Hi' Hj' Hne Hs.
  rewrite !(written_cell_distinct p row col v a cells) by done.
  destruct (decide (i = row ∧ j = col)) as [[-> ->]|Hn1];
    destruct (decide (i' = row ∧ j' = col)) as [[-> ->]|Hn2].
  - done.
  - intros _ Heq. by apply (Hcheck i' j' Hi' Hj' (scanned_sym _ _ Hs)).
  - intros _ Heq. by apply (Hcheck i j Hi Hj Hs).
  - by apply Hcons.
Qed.

Lemma filled_before_next p row col :
  0 ≤ row < 9 → 0 ≤ col < 9 →
  filled_before p row col → cell p row col ≠ 0 →
  filled_before p (next_rc row col).1 (next_rc row col).2.
Proof.
  intros Hr Hc Hf H0. rewrite next_rc_spec by done.
  intros i j Hi Hj Hlt.
  destruct (decide (i = row ∧ j = col)) as [[-> ->]|Hne]; [done|].
  apply Hf; [done..|]. case_decide; cbn [fst snd] in Hlt; lia.
Qed.

(** The candidate loop, given that the recursive call is sound. *)
Lemma try_candidates_sound solve_next row col :
  0 ≤ row < 9 → 0 ≤ col < 9 →
  (∀ p' q, solver_inv p' →
     filled_before p' (next_rc row col).1 (next_rc row col).2 →
     solve_next p' = Some (Ok (Solution q)) →
     solver_inv q ∧ filled_before q 9 0) →
  ∀ ks, Forall (λ k, 0 ≤ k < 9) ks →
  ∀ p q, solver_inv p → filled_before p row col →
    try_candidates solve_next row col p ks = Some (Ok (Solution q)) →
    solver_inv q ∧ filled_before q 9 0.
Proof.
  intros Hr Hc Hnext ks Hks.
  induction Hks as [|k ks Hk _ IH]; intros p q Hinv Hf; [done|].
  cbn [try_candidates].
  destruct (setitem_in_range p row col (k + 1) (proj1 Hinv) Hr Hc)
    as (a & cells & Ha & Hcells & Hl & ->).
  destruct (check_cells p row col (k + 1)) eqn:Hcheck; [|by apply IH].
  set (p1 := written p a cells (Z.to_nat col) (k + 1)).
  assert (solver_inv p1) as Hinv1
    by (apply (written_inv p row col (k + 1) a cells); try done; lia).
  assert (∀ i j, 0 ≤ i < 9 → 0 ≤ j < 9 →
            cell p1 i j = if decide (i = row ∧ j = col) then k + 1 else cell p i j)
    as Hcell.
  { intros i j Hi Hj. destruct Hinv as (? & _ & ? & _).
    by apply written_cell_distinct. }
  assert (filled_before p1 row col) as Hf1.
  { intros i j Hi Hj Hlt. rewrite Hcell by done.
    rewrite decide_False by lia. by apply Hf. }
  assert (cell p1 row col ≠ 0) as H1.
  { rewrite Hcell by done. rewrite decide_True by done. lia. }
  destruct (bool_decide (row = 8) && bool_decide (col = 8)) eqn:Elast.
  - intros [= <-]. split; [done|].
    apply andb_prop in Elast as [->%bool_decide_eq_true_1 ->%bool_decide_eq_true_1].
    intros i j Hi Hj _.
    destruct (decide (i = 8 ∧ j = 8)) as [[-> ->]|Hne]; [done|].
    apply Hf1; [done..|]. lia.
  - destruct (solve_next p1) as [[[q'|]|e]|] eqn:Es; [| |done..].
    + intros [= <-]. apply (Hnext p1 q'); [done| |done].
      by apply filled_before_next.
    + by apply IH.
Qed.

Lemma solve_puzzle_sound fuel :
  ∀ p row col q, solver_inv p → filled_before p row col → cursor row col →
    _solve_puzzle fuel p row col = Some (Ok (Solution q)) →
    solver_inv q ∧ filled_before q 9 0.
Proof.
  induction fuel as [|fuel IH]; intros p row col q Hinv Hf Hcur; [done|].
  cbn [_solve_puzzle]. unfold deepcopy.
  destruct Hcur as [[Hr Hc]|[-> ->]].
  2:{ cbn. by intros [= <-]. }
  rewrite !bool_decide_eq_false_2 by lia. cbn [orb].
  rewrite get_cell by (done || apply Hinv).
  case_bool_decide as H0.
  - apply IH; [done| |by apply next_rc_cursor]. by apply filled_before_next.
  - apply try_candidates_sound; try done.
    + intros p' q' Hinv' Hf'. apply IH; [done..|]. by apply next_rc_cursor.
    + apply Forall_forall. by intros k Hk%elem_of_range.
Qed.

(** ** C5: the grid that the solver returns *)

Lemma sum_Permutation l k : l ≡ₚ k → sum l = sum k.
Proof.
  induction 1 as [|x l k _ IH|x y l|l k m _ IH1 _ IH2]; cbn [sum foldr] in *.
  - done.
  - unfold sum in IH. lia.
  - lia.
  - congruence.
Qed.

Lemma count_Permutation d l k : l ≡ₚ k → count d l = count d k.
Proof. intros H. unfold count. by rewrite H. Qed.

Lemma digits_Permutation l :
  length l = 9%nat → NoDup l → Forall (λ x, 1 ≤ x ≤ 9) l → l ≡ₚ digits.
Proof.
  intros Hl Hnd Hr. apply submseteq_length_Permutation.
  - apply NoDup_submseteq; [done|]. intros x Hx.
    rewrite Forall_forall in Hr. apply elem_of_range2. specialize (Hr x Hx). lia.
  - rewrite Hl. done.
Qed.

Lemma digits_sum_count :
  sum digits = 45 ∧ ∀ d, 1 ≤ d ≤ 9 → count d digits = 1%nat.
Proof.
  split; [done|]. intros d Hd.
  assert (d = 1 ∨ d = 2 ∨ d = 3 ∨ d = 4 ∨ d = 5 ∨ d = 6 ∨ d = 7 ∨ d = 8 ∨ d = 9)
    as H by lia.
  repeat destruct H as [->|H]; try subst d; reflexivity.
Qed.

(** A line of nine filled cells, no two of them equal. *)
Lemma line_digits (f : Z → Z) :
  (∀ k, 0 ≤ k < 9 → 1 ≤ f k ≤ 9) →
  (∀ k k', 0 ≤ k < 9 → 0 ≤ k' < 9 → k ≠ k' → f k ≠ f k') →
  f <$> range 9 ≡ₚ digits.
Proof.
  intros Hr Hinj. apply digits_Permutation.
  - by rewrite length_fmap.
  - apply NoDup_fmap_2_strong; [|apply NoDup_range].
    intros x y Hx%elem_of_range Hy%elem_of_range Heq.
    destruct (decide (x = y)) as [|Hne]; [done|]. by destruct (Hinj x y).
  - apply Forall_forall. intros x (k & -> & Hk%elem_of_range)%list_elem_of_fmap.
    by apply Hr.
Qed.

Lemma filled_cell p i j :
  solver_inv p → filled_before p 9 0 → 0 ≤ i < 9 → 0 ≤ j < 9 → 1 ≤ cell p i j ≤ 9.
Proof.
  intros (Hp & Hrange & _) Hf Hi Hj.
  pose proof (cell_range p i j Hp Hrange Hi Hj).
  pose proof (Hf i j Hi Hj). lia.
Qed.

Lemma solved_lines p k :
  solver_inv p → filled_before p 9 0 → 0 ≤ k < 9 →
  row_cells p k ≡ₚ digits ∧ col_cells p k ≡ₚ digits.
Proof.
  intros Hinv Hf Hk.
  pose proof Hinv as (_ & _ & _ & Hcons). rewrite consistent_iff in Hcons.
  split; apply line_digits.
  - intros j Hj. by apply filled_cell.
  - intros j j' Hj Hj' Hne. apply Hcons; try done.
    + congruence.
    + by left.
    + pose proof (filled_cell p k j Hinv Hf Hk Hj). lia.
  - intros i Hi. by apply filled_cell.
  - intros i i' Hi Hi' Hne. apply Hcons; try done.
    + congruence.
    + right. by left.
    + pose proof (filled_cell p i k Hinv Hf Hi Hk). lia.
Qed.

Lemma filled_before_start p : filled_before p 0 0.
Proof. intros i j Hi Hj. lia. Qed.



Example solve_empty :
  _solve_puzzle 82 (of_table empty_table) 0 0
    = Some (Ok (Solution (of_table first_solution))).
Proof. vm_compute. reflexivity. Qed.


(** Why the rows must be distinct objects: on the table [[[0]*9]*9] a
    write in one row shows in all nine, and the solver returns nine equal
    rows. *)
Example solve_shared_rows :
  shape_ok shared_rows ∧ range_ok shared_rows ∧ consistent shared_rows
  ∧ ∃ q, _solve_puzzle 82 shared_rows 0 0 = Some (Ok (Solution q))
         ∧ table q = replicate 9 [1; 2; 3; 4; 5; 6; 7; 8; 9].
Proof.
  split; [compute_done|]. split; [compute_done|]. split; [compute_done|].
  eexists. split; [vm_compute; reflexivity|]. compute_done.
Qed.

(** ** C9: termination and the size of the search *)

(** More fuel does not change a result. *)
Lemma try_candidates_mono (f g : Puzzle → option (result solved)) row col :
  (∀ p x, f p = Some x → g p = Some x) →
  ∀ ks p x, try_candidates f row col p ks = Some x →
            try_candidates g row col p ks = Some x.
Proof.
  intros Hfg ks. induction ks as [|k ks IH]; intros p x; [done|].
  cbn [try_candidates].
  destruct (__setitem__ p (row, col) (k + 1)) as [[[]|e] p']; [|destruct e; auto].
  destruct (bool_decide (row = 8) && bool_decide (col = 8)); [done|].
  destruct (f p') as [y|] eqn:Ef; [|done].
  rewrite (Hfg p' y Ef). destruct y as [[q|]|e]; auto.
Qed.

Lemma solve_puzzle_fuel_S fuel :
  ∀ p row col x, _solve_puzzle fuel p row col = Some x →
                 _solve_puzzle (S fuel) p row col = Some x.
Proof.
  induction fuel as [|fuel IH]; intros p row col x; [done|].
  intros H. cbn [_solve_puzzle] in H |- *.
  destruct (bool_decide (row = 9) || bool_decide (col = 9)); [done|].
  destruct (__getitem__ (deepcopy p) (row, col)) as [c|e]; [|done].
  destruct (bool_decide (c ≠ 0)).
  - by apply IH.
  - revert H. apply try_candidates_mono. intros p' y. apply IH.
Qed.

Lemma solve_puzzle_fuel_mono fuel fuel' p row col x :
  (fuel ≤ fuel')%nat → _solve_puzzle fuel p row col = Some x →
  _solve_puzzle fuel' p row col = Some x.
Proof.
  induction 1 as [|fuel' _ IH]; [done|]. intros H. by apply solve_puzzle_fuel_S, IH.
Qed.

(** The candidate loop returns, given that the recursive call does. *)
Lemma try_candidates_total solve_next row col :
  0 ≤ row < 9 → 0 ≤ col < 9 →
  (∀ p', shape_ok p' → ∃ r, solve_next p' = Some (Ok r)) →
  ∀ ks, Forall (λ k, 0 ≤ k < 9) ks →
  ∀ p, shape_ok p → ∃ r, try_candidates solve_next row col p ks = Some (Ok r).
Proof.
  intros Hr Hc Hnext ks Hks.
  induction Hks as [|k ks Hk _ IH]; intros p Hp; [by eexists|].
  cbn [try_candidates].
  destruct (setitem_in_range p row col (k + 1) Hp Hr Hc)
    as (a & cells & Ha & Hcells & Hl & ->).
  destruct (check_cells p row col (k + 1)); [|by apply IH].
  assert (shape_ok (written p a cells (Z.to_nat col) (k + 1))) as Hp1
    by by apply written_shape.
  destruct (bool_decide (row = 8) && bool_decide (col = 8)); [by eexists|].
  destruct (Hnext _ Hp1) as [[q|] ->]; [by eexists|by apply IH].
Qed.

(** With one unit of fuel for each cursor position still ahead, (9, 0)
    included, the solver returns a puzzle or [False]. *)
Lemma solve_puzzle_total fuel :
  ∀ p row col, shape_ok p → cursor row col →
    82 - (9 * row + col) ≤ Z.of_nat fuel →
    ∃ r, _solve_puzzle fuel p row col = Some (Ok r).
Proof.
  induction fuel as [|fuel IH]; intros p row col Hp Hcur Hfuel.
  { destruct Hcur; lia. }
  cbn [_solve_puzzle]. unfold deepcopy.
  destruct Hcur as [[Hr Hc]|[-> ->]]; [|by eexists].
  rewrite !bool_decide_eq_false_2 by lia. cbn [orb].
  rewrite get_cell by done.
  assert (∀ p', shape_ok p' →
            ∃ r, _solve_puzzle fuel p' (next_rc row col).1 (next_rc row col).2
                 = Some (Ok r)) as Hnext.
  { intros p' Hp'. apply IH; [done|by apply next_rc_cursor|].
    rewrite next_rc_spec by done. case_decide; cbn [fst snd]; lia. }
  case_bool_decide.
  - by apply Hnext.
  - apply try_candidates_total; try done.
    apply Forall_forall. by intros k Hk%elem_of_range.
Qed.

(** The counting solver computes what the solver computes. *)
Lemma try_candidates_cost_erase f_cost f row col :
  (∀ p, fst <$> f_cost p = f p) →
  ∀ ks p n d t,
    fst <$> try_candidates_cost f_cost row col p ks n d t
    = try_candidates f row col p ks.
Proof.
  intros Hf ks. induction ks as [|k ks IH]; intros p n d t; [done|].
  cbn [try_candidates_cost try_candidates].
  destruct (__setitem__ p (row, col) (k + 1)) as [[[]|e] p']; [|by destruct e].
  destruct (bool_decide (row = 8) && bool_decide (col = 8)); [done|].
  rewrite <- (Hf p'). destruct (f_cost p') as [[[[q|]|e] c]|]; cbn; auto.
Qed.

Lemma solve_puzzle_cost_erase fuel :
  ∀ p row col,
    fst <$> _solve_puzzle_cost fuel p row col = _solve_puzzle fuel p row col.
Proof.
  induction fuel as [|fuel IH]; intros p row col; [done|].
  cbn [_solve_puzzle_cost _solve_puzzle].
  destruct (bool_decide (row = 9) || bool_decide (col = 9)); [done|].
  destruct (__getitem__ (deepcopy p) (row, col)) as [c|e]; [|done].
  destruct (bool_decide (c ≠ 0)).
  - rewrite <- IH. by destruct (_solve_puzzle_cost fuel _ _ _) as [[r c']|].
  - apply try_candidates_cost_erase. intros p'. apply IH.
Qed.

(** The counts of the candidate loop, given those of the recursive call. *)
Lemma try_candidates_cost_bound f_cost row col (D : nat) :
  (∀ p r c, f_cost p = Some (r, c) → (depth c ≤ D)%nat ∧ (tries c ≤ 9)%nat) →
  ∀ ks p n d t r c,
    (n + length ks ≤ 9)%nat → (d ≤ S D)%nat → (t ≤ 9)%nat →
    try_candidates_cost f_cost row col p ks n d t = Some (r, c) →
    (depth c ≤ S D)%nat ∧ (tries c ≤ 9)%nat.
Proof.
  intros Hf ks. induction ks as [|k ks IH]; intros p n d t r c Hn Hd Ht.
  { intros [= <- <-]. cbn in *. lia. }
  cbn [try_candidates_cost]. cbn [length] in Hn.
  destruct (__setitem__ p (row, col) (k + 1)) as [[[]|e] p'].
  - destruct (bool_decide (row = 8) && bool_decide (col = 8)).
    { intros [= <- <-]. cbn. lia. }
    destruct (f_cost p') as [[[[q|]|e] c']|] eqn:Ef; [| | |done];
      destruct (Hf _ _ _ Ef) as [Hd' Ht'].
    + intros [= <- <-]. cbn. lia.
    + apply IH; lia.
    + intros [= <- <-]. cbn. lia.
  - destruct e; try (intros [= <- <-]; cbn; lia). apply IH; lia.
Qed.

Lemma solve_puzzle_cost_bound fuel :
  ∀ p row col r c, cursor row col →
    _solve_puzzle_cost fuel p row col = Some (r, c) →
    Z.of_nat (depth c) ≤ 81 - (9 * row + col) ∧ (tries c ≤ 9)%nat.
Proof.
  induction fuel as [|fuel IH]; intros p row col r c Hcur; [done|].
  cbn [_solve_puzzle_cost]. unfold deepcopy.
  destruct Hcur as [[Hr Hc]|[-> ->]].
  2:{ cbn. intros [= <- <-]. cbn. lia. }
  rewrite !bool_decide_eq_false_2 by lia. cbn [orb].
  destruct (__getitem__ p (row, col)) as [x|e].
  2:{ intros [= <- <-]. cbn. lia. }
  assert (∀ p' r' c',
            _solve_puzzle_cost fuel p' (next_rc row col).1 (next_rc row col).2
              = Some (r', c') →
            (depth c' ≤ Z.to_nat (80 - (9 * row + col)))%nat ∧ (tries c' ≤ 9)%nat)
    as Hnext.
  { intros p' r' c' H. apply IH in H as [H1 H2]; [|by apply next_rc_cursor].
    split; [|done]. rewrite next_rc_spec in H1 by done.
    case_decide; cbn [fst snd] in H1; lia. }
  destruct (bool_decide (x ≠ 0)).
  - destruct (_solve_puzzle_cost fuel p _ _) as [[r' c']|] eqn:E; [|done].
    intros [= <- <-]. destruct (Hnext _ _ _ E). cbn. lia.
  - intros H.
    apply (try_candidates_cost_bound _ row col (Z.to_nat (80 - (9 * row + col)))) in H.
    + lia.
    + done.
    + rewrite range_9. cbn. lia.
    + lia.
    + lia.
Qed.

(** A grid without an empty cell takes the cursor through all 81 cells to
    (9, 0), each step a recursive call: 82 nested activations, and no
    result with fewer. *)
Lemma solve_puzzle_full_needs fuel :
  ∀ p row col, shape_ok p → full p → cursor row col →
    Z.of_nat fuel < 82 - (9 * row + col) →
    _solve_puzzle fuel p row col = None.
Proof.
  induction fuel as [|fuel IH]; intros p row col Hp Hfull Hcur Hfuel; [done|].
  cbn [_solve_puzzle]. unfold deepcopy.
  destruct Hcur as [[Hr Hc]|[-> ->]]; [|lia].
  rewrite !bool_decide_eq_false_2 by lia. cbn [orb].
  rewrite get_cell by done.
  rewrite bool_decide_eq_true_2
    by (by apply (proj1 (forall_coords (λ i j, cell p i j ≠ 0)) Hfull)).
  apply IH; [done..|by apply next_rc_cursor|].
  rewrite next_rc_spec by done. case_decide; cbn [fst snd]; lia.
Qed.

(** C9, counterexample.  The claim bounds the depth of the recursion by
    81.  The grid [first_solution] has no empty cell: the calls at (0, 0),
    (0, 1), ... (8, 8) each find a clue and call on, and all 81 of them
    are waiting when the call at (9, 0) returns the grid.  That is 82
    nested activations: with room for 81 the search does not come to its
    result. *)
Lemma solve_puzzle_depth_82 :
  shape_ok (of_table first_solution) ∧ range_ok (of_table first_solution)
  ∧ _solve_puzzle 81 (of_table first_solution) 0 0 = None
  ∧ ∃ c, _solve_puzzle_cost 82 (of_table first_solution) 0 0
           = Some (Ok (Solution (of_table first_solution)), c)
         ∧ activations c = 82%nat ∧ ¬ (activations c ≤ 81)%nat.
Proof.
  split; [compute_done|]. split; [compute_done|].
  split; [vm_compute; reflexivity|].
  exists (mkCost 81 0). split; [vm_compute; reflexivity|].
  split; [reflexivity|]. unfold activations. cbn [depth]. lia.
Qed.

(** C9, as amended.  For every well-shaped grid the solver started at
    (0, 0) terminates: given room for 82 nested activations it returns a
    puzzle or [False], and more room gives the same result.  The call
    stack is never deeper than 82 activations, the entry call and at most
    81 recursive calls below it, and no activation tries more than 9
    candidate values for its cell. *)
Theorem solve_puzzle_terminates p :
  shape_ok p →
  ∃ r c,
    (∀ fuel, (82 ≤ fuel)%nat → _solve_puzzle fuel p 0 0 = Some (Ok r))
    ∧ _solve_puzzle_cost 82 p 0 0 = Some (Ok r, c)
    ∧ (activations c ≤ 82)%nat ∧ (tries c ≤ 9)%nat.
Proof.
  intros Hp.
  destruct (solve_puzzle_total 82 p 0 0 Hp) as [r Hr]; [left; lia|lia|].
  pose proof (solve_puzzle_cost_erase 82 p 0 0) as He. rewrite Hr in He.
  destruct (_solve_puzzle_cost 82 p 0 0) as [[r' c]|] eqn:Ec; [|done].
  cbn in He. injection He as ->.
  destruct (solve_puzzle_cost_bound 82 p 0 0 (Ok r) c) as [Hd Ht]; [left; lia|done|].
  exists r, c. unfold activations. repeat split; [|lia|done].
  intros fuel Hfuel. by apply (solve_puzzle_fuel_mono 82).
Qed.

Lemma solve_puzzle_terminates_witness :
  ∃ r c,
    (∀ fuel, (82 ≤ fuel)%nat →
       _solve_puzzle fuel (of_table dead_end) 0 0 = Some (Ok r))
    ∧ _solve_puzzle_cost 82 (of_table dead_end) 0 0 = Some (Ok r, c)
    ∧ (activations c ≤ 82)%nat ∧ (tries c ≤ 9)%nat.
Proof. apply (solve_puzzle_terminates (of_table dead_end)). compute_done. Defined.

(** ** C2: the result of [solve] *)

(** C2.  The grid [dead_end] has no solution; [_solve_puzzle] returns
    [False] for it, and the method [solve], which goes on to read
    [solution.data], raises [AttributeError] instead of returning. *)
Theorem solve_unsolvable_raises :
  shape_ok (of_table dead_end) ∧ range_ok (of_table dead_end)
  ∧ consistent (of_table dead_end)
  ∧ _solve_puzzle 82 (of_table dead_end) 0 0 = Some (Ok PyFalse)
  ∧ solve 82 (of_table dead_end) = Some (Raise AttributeError, of_table dead_end).
Proof. repeat split; compute_done. Qed.

(** Whenever the search fails, so for every unsolvable grid, [solve]
    raises. *)
Lemma solve_False_raises fuel p :
  _solve_puzzle fuel p 0 0 = Some (Ok PyFalse) →
  solve fuel p = Some (Raise AttributeError, p).
Proof. intros H. unfold solve. by rewrite H. Qed.

(** * Further properties of the code *)

(** ** Indices counted from the end, and indices off the grid *)

Lemma norm_index_shift i : -9 ≤ i < 0 → norm_index 9 i = norm_index 9 (i + 9).
Proof.
  intros Hi. rewrite norm_index_neg by lia. rewrite norm_index_nonneg by lia. done.
Qed.

Lemma getitem_shift_row p i j :
  shape_ok p → -9 ≤ i < 0 → __getitem__ p (i, j) = __getitem__ p (i + 9, j).
Proof. intros Hp Hi. rewrite !getitem_norm by done. by rewrite norm_index_shift. Qed.

Lemma getitem_shift_col p i j :
  shape_ok p → -9 ≤ j < 0 → __getitem__ p (i, j) = __getitem__ p (i, j + 9).
Proof. intros Hp Hj. rewrite !getitem_norm by done. by rewrite (norm_index_shift j). Qed.

Lemma range2_shift a b : range2 (a + 9) (b + 9) = (λ k, k + 9) <$> range2 a b.
Proof.
  unfold range2. rewrite <- list_fmap_compose.
  replace (b + 9 - (a + 9)) with (b - a) by lia.
  apply list_fmap_ext. intros _ k _. cbn. lia.
Qed.

Lemma scan_lines_shift_row p row col v ks :
  shape_ok p → -9 ≤ row < 0 →
  scan_lines p row col v ks = scan_lines p (row + 9) col v ks.
Proof.
  intros Hp Hr. induction ks as [|i ks IH]; [done|]. cbn [scan_lines].
  by rewrite (getitem_shift_row p row i), IH.
Qed.

Lemma scan_lines_shift_col p row col v ks :
  shape_ok p → -9 ≤ col < 0 →
  scan_lines p row col v ks = scan_lines p row (col + 9) v ks.
Proof.
  intros Hp Hc. induction ks as [|i ks IH]; [done|]. cbn [scan_lines].
  by rewrite (getitem_shift_col p i col), IH.
Qed.

Lemma scan_block_row_shift_row p i v js :
  shape_ok p → -9 ≤ i < 0 →
  scan_block_row p i v js = scan_block_row p (i + 9) v js.
Proof.
  intros Hp Hi. induction js as [|j js IH]; [done|]. cbn [scan_block_row].
  by rewrite (getitem_shift_row p i j), IH.
Qed.

Lemma scan_block_row_shift_col p i v js :
  shape_ok p → Forall (λ j, -9 ≤ j < 0) js →
  scan_block_row p i v js = scan_block_row p i v ((λ k, k + 9) <$> js).
Proof.
  intros Hp. induction 1 as [|j js Hj _ IH]; [done|].
  cbn [scan_block_row fmap list_fmap].
  by rewrite (getitem_shift_col p i j), IH.
Qed.

Lemma scan_block_shift_row p sq_col v ks :
  shape_ok p → Forall (λ i, -9 ≤ i < 0) ks →
  scan_block p sq_col v ks = scan_block p sq_col v ((λ k, k + 9) <$> ks).
Proof.
  intros Hp. induction 1 as [|i ks Hi _ IH]; [done|].
  cbn [scan_block fmap list_fmap].
  by rewrite (scan_block_row_shift_row p i), IH.
Qed.

Lemma scan_block_shift_col p sq_col v ks :
  shape_ok p → -9 ≤ sq_col ≤ -3 →
  scan_block p sq_col v ks = scan_block p (sq_col + 9) v ks.
Proof.
  intros Hp Hc. induction ks as [|i ks IH]; [done|]. cbn [scan_block].
  rewrite (scan_block_row_shift_col p i v (range2 sq_col (sq_col + 3))).
  - rewrite <- range2_shift.
    replace (sq_col + 3 + 9) with (sq_col + 9 + 3) by lia. by rewrite IH.
  - done.
  - apply Forall_forall. intros k Hk%elem_of_range2. lia.
Qed.

Lemma block_start_shift k : (k + 9) `div` 3 * 3 = k `div` 3 * 3 + 9.
Proof. Z.div_mod_to_equations. lia. Qed.

Lemma block_start_neg k : -9 ≤ k < 0 → -9 ≤ k `div` 3 * 3 ≤ -3.
Proof. intros H. Z.div_mod_to_equations. lia. Qed.

Lemma check_valid_move_shift_row p row col v :
  shape_ok p → -9 ≤ row < 0 →
  check_valid_move p row col v = check_valid_move p (row + 9) col v.
Proof.
  intros Hp Hr. unfold check_valid_move.
  rewrite (scan_lines_shift_row p row) by done.
  destruct (scan_lines p (row + 9) col v (range 9)) as [[]|e]; [|done..].
  cbn [mbind result_bind]. rewrite block_start_shift.
  pose proof (block_start_neg row Hr).
  rewrite (scan_block_shift_row p _ v (range2 (row `div` 3 * 3) (row `div` 3 * 3 + 3))).
  - rewrite <- range2_shift.
    by replace (row `div` 3 * 3 + 3 + 9) with (row `div` 3 * 3 + 9 + 3) by lia.
  - done.
  - apply Forall_forall. intros k Hk%elem_of_range2. lia.
Qed.

Lemma check_valid_move_shift_col p row col v :
  shape_ok p → -9 ≤ col < 0 →
  check_valid_move p row col v = check_valid_move p row (col + 9) v.
Proof.
  intros Hp Hc. unfold check_valid_move.
  rewrite (scan_lines_shift_col p row col) by done.
  destruct (scan_lines p row (col + 9) v (range 9)) as [[]|e]; [|done..].
  cbn [mbind result_bind]. rewrite block_start_shift.
  apply scan_block_shift_col; [done|]. by apply block_start_neg.
Qed.

Lemma store_cell_shift_row p row col v :
  shape_ok p → -9 ≤ row < 0 → store_cell p row col v = store_cell p (row + 9) col v.
Proof.
  intros (Hl & _) Hr. unfold store_cell, getitem. rewrite Hl.
  by rewrite norm_index_shift.
Qed.

Lemma store_cell_shift_col p row col v :
  shape_ok p → -9 ≤ col < 0 → store_cell p row col v = store_cell p row (col + 9) v.
Proof.
  intros Hp Hc. unfold store_cell.
  destruct (getitem (data p) row) as [a|e] eqn:Ea; [|done]. cbn [mbind result_bind].
  unfold deref. destruct (heap p !! a) as [cells|] eqn:Ecells; [|done].
  cbn [mbind result_bind].
  assert (length cells = 9%nat) as Hl.
  { apply getitem_Ok in Ea as (i & _ & Hi). destruct Hp as (_ & _ & Hrows).
    rewrite Forall_forall in Hrows. apply Hrows.
    eapply list_elem_of_lookup_2. rewrite (table_lookup p i a Hi), Ecells. done. }
  unfold setitem. rewrite Hl. by rewrite norm_index_shift.
Qed.

Lemma mod_9_cases k : -9 ≤ k < 9 → (0 ≤ k ∧ k `mod` 9 = k) ∨ (k < 0 ∧ k `mod` 9 = k + 9).
Proof. intros H. Z.div_mod_to_equations. lia. Qed.

(** X1.  On a well-shaped grid, indices from -9 to -1 address the grid
    from the end, for the check and for the write alike: they behave as
    the indices taken modulo 9, block included. *)
Theorem negative_indices_wrap p row col v :
  shape_ok p → -9 ≤ row < 9 → -9 ≤ col < 9 →
  check_valid_move p row col v = check_valid_move p (row `mod` 9) (col `mod` 9) v
  ∧ __setitem__ p (row, col) v = __setitem__ p (row `mod` 9, col `mod` 9) v.
Proof.
  intros Hp Hr Hc.
  assert (check_valid_move p row col v
          = check_valid_move p (row `mod` 9) (col `mod` 9) v
          ∧ store_cell p row col v = store_cell p (row `mod` 9) (col `mod` 9) v)
    as [Hcheck Hstore].
  { destruct (mod_9_cases row Hr) as [[? ->]|[? ->]];
      destruct (mod_9_cases col Hc) as [[? ->]|[? ->]].
    - done.
    - by rewrite check_valid_move_shift_col, store_cell_shift_col by (done || lia).
    - by rewrite check_valid_move_shift_row, store_cell_shift_row by (done || lia).
    - rewrite check_valid_move_shift_row, store_cell_shift_row by (done || lia).
      by rewrite check_valid_move_shift_col, store_cell_shift_col by (done || lia). }
  split; [done|]. by rewrite !setitem_unfold, Hcheck, Hstore.
Qed.

Lemma negative_indices_wrap_witness :
  check_valid_move (of_table one_clue) (-9) (-1) 5
    = check_valid_move (of_table one_clue) 0 8 5
  ∧ __setitem__ (of_table one_clue) (-9, -1) 5 = __setitem__ (of_table one_clue) (0, 8) 5.
Proof.
  apply (negative_indices_wrap (of_table one_clue) (-9) (-1) 5); [compute_done|lia|lia].
Defined.

(** X2.  Off the grid nothing is written.  With a column index below -9
    or above 8 the write raises [IndexError].  With such a row index and a
    column on the grid it raises [InvalidMove] when the top cell of the
    column holds the value (the column scan finds it before the row is
    read) and [IndexError] otherwise.  In each case the grid stays as it
    is. *)
Theorem setitem_off_grid p row col v :
  shape_ok p →
  (¬ (-9 ≤ col < 9) → __setitem__ p (row, col) v = (Raise IndexError, p))
  ∧ (¬ (-9 ≤ row < 9) → -9 ≤ col < 9 →
       __setitem__ p (row, col) v =
         (Raise (if decide (cell p 0 (col `mod` 9) = v) then InvalidMove
                 else IndexError), p)).
Proof.
  intros Hp. split.
  - intros Hc. rewrite setitem_unfold. unfold check_valid_move.
    rewrite range_9. cbn [scan_lines]. rewrite (getitem_norm p 0 col Hp).
    rewrite (norm_index_out 9 col) by lia. done.
  - intros Hr Hc. rewrite setitem_unfold. unfold check_valid_move.
    rewrite range_9. cbn [scan_lines].
    rewrite (getitem_norm p 0 col Hp), (getitem_norm p row 0 Hp).
    rewrite (norm_index_out 9 row) by lia.
    destruct (norm_index 9 col) as [j|] eqn:Ej.
    2:{ unfold norm_index in Ej. repeat case_bool_decide; try done; lia. }
    pose proof (norm_index_mod _ _ _ Ej) as Hm. change (Z.of_nat 9) with 9 in Hm.
    rewrite <- Hm. rewrite (norm_index_nonneg 9 0) by lia. cbn [mbind result_bind Z.to_nat Z.of_nat].
    case_bool_decide; by case_decide.
Qed.

Lemma setitem_off_grid_witness :
  __setitem__ (of_table one_clue) (0, 9) 5 = (Raise IndexError, of_table one_clue)
  ∧ __setitem__ (of_table one_clue) (100, 0) 5 = (Raise InvalidMove, of_table one_clue)
  ∧ __setitem__ (of_table one_clue) (100, 0) 6 = (Raise IndexError, of_table one_clue).
Proof.
  assert (shape_ok (of_table one_clue)) as Hp by compute_done.
  split; [|split].
  - apply (setitem_off_grid (of_table one_clue) 0 9 5 Hp). lia.
  - apply (setitem_off_grid (of_table one_clue) 100 0 5 Hp); lia.
  - apply (setitem_off_grid (of_table one_clue) 100 0 6 Hp); lia.
Defined.

(** ** What a write changes, and what a constructed grid reads *)

(** X3.  A write that succeeds at a target on the grid changes the cells
    in the target's column of every row that is the same list object as
    the target's row, and no other cell; when the nine rows are distinct
    objects it changes the target cell only.  The list of row objects is
    the one it was. *)
Theorem setitem_frame p row col v p' :
  shape_ok p → 0 ≤ row < 9 → 0 ≤ col < 9 →
  __setitem__ p (row, col) v = (Ok tt, p') →
  data p' = data p
  ∧ (∀ i j, 0 ≤ i < 9 → 0 ≤ j < 9 →
       cell p' i j =
         if decide (data p !! Z.to_nat i = data p !! Z.to_nat row ∧ j = col)
         then v else cell p i j)
  ∧ (distinct_rows p →
     ∀ i j, 0 ≤ i < 9 → 0 ≤ j < 9 → (i, j) ≠ (row, col) → cell p' i j = cell p i j).
Proof.
  intros Hp Hr Hc.
  destruct (setitem_in_range p row col v Hp Hr Hc) as (a & cells & Ha & Hcells & Hl & ->).
  destruct (check_cells p row col v); [|done]. intros [= <-].
  split; [done|]. split.
  - intros i j Hi Hj. rewrite <- (Z2Nat.id i), <- (Z2Nat.id j) at 1 by lia.
    rewrite (written_cell p a cells (Z.to_nat col) v Hp Hcells Hl) by lia.
    rewrite !Z2Nat.id by lia. rewrite Ha.
    destruct (decide (data p !! Z.to_nat i = Some a ∧ j = col)) as [[? ?]|Hn].
    + rewrite decide_True; [done|]. split; [done|lia].
    + rewrite decide_False; [done|]. intros [? ?]. apply Hn. split; [done|lia].
  - intros Hnd i j Hi Hj Hne.
    rewrite (written_cell_distinct p row col v a cells) by done.
    rewrite decide_False; [done|]. intros [-> ->]. done.
Qed.

Lemma setitem_frame_witness :
  cell (__setitem__ shared_rows (0, 0) 7).2 5 0 = 7
  ∧ cell (__setitem__ shared_rows (0, 0) 7).2 5 1 = cell shared_rows 5 1.
Proof.
  destruct (__setitem__ shared_rows (0, 0) 7) as [r p'] eqn:E.
  assert (r = Ok tt) as -> by (revert E; vm_compute; congruence).
  destruct (setitem_frame shared_rows 0 0 7 p') as (_ & Hcell & _);
    [compute_done|lia|lia|exact E|].
  cbn [snd]. rewrite !Hcell by lia. split; reflexivity.
Defined.

(** X4.  Reading a constructed grid gives back the table: for row and
    column in [0..8], [self[row, col]] is the integer at that place of the
    table the puzzle was constructed from. *)
Theorem init_getitem st t p i j :
  __init__ st t = Ok p → 0 ≤ i < 9 → 0 ≤ j < 9 →
  ∃ rows a cells z,
    as_list st t = Some rows ∧ rows !! Z.to_nat i = Some (PRef a)
    ∧ st !! a = Some cells ∧ cells !! Z.to_nat j = Some (PInt z)
    ∧ __getitem__ p (i, j) = Ok z.
Proof.
  intros Hinit Hi Hj.
  pose proof (init_invariant st t p Hinit) as [Hp _].
  apply init_Ok in Hinit as (rs & Ht & Hlen & Hrs & ->).
  destruct (shape_row _ (Z.to_nat i) Hp) as (a & zs & Ha & Hzs & Hl & Htab); [lia|].
  cbn [data heap] in Ha, Hzs.
  destruct (stored_lookup st rs a Hrs) as (zs' & Hzs' & Hst & _).
  { by eapply list_elem_of_lookup_2. }
  assert (zs' = zs) as -> by congruence. cbn [fst snd] in Hst.
  exists (PRef <$> rs.*1), a, (PInt <$> zs), (cell (mkPuzzle rs.*1 (list_to_map rs)) i j).
  split; [done|]. split; [by rewrite list_lookup_fmap, Ha|]. split; [done|]. split.
  - rewrite list_lookup_fmap.
    pose proof (cell_lookup _ (Z.to_nat i) (Z.to_nat j) zs Htab) as Hc.
    rewrite !Z2Nat.id in Hc by lia. rewrite Hc by lia. done.
  - by apply get_cell.
Qed.

Lemma init_getitem_witness :
  ∃ p, __init__ (store_of two_fives) (PRef 9%nat) = Ok p
       ∧ __getitem__ p (0, 1) = Ok 5.
Proof.
  eexists. split; [vm_compute; reflexivity|].
  match goal with |- __getitem__ ?p _ = _ =>
    destruct (init_getitem (store_of two_fives) (PRef 9%nat) p 0 1)
      as (rows & a & cells & z & Hrows & Ha & Hcells & Hz & Hget);
      [vm_compute; reflexivity|lia|lia|]
  end.
  rewrite Hget. f_equal.
  vm_compute in Hrows. injection Hrows as <-.
  vm_compute in Ha. injection Ha as <-.
  vm_compute in Hcells. injection Hcells as <-.
  vm_compute in Hz. by injection Hz as <-.
Defined.

(** ** [complete] on grids without duplicates *)

Lemma full_iff p : full p ↔ ∀ i j, 0 ≤ i < 9 → 0 ≤ j < 9 → cell p i j ≠ 0.
Proof. apply (forall_coords (λ i j, cell p i j ≠ 0)). Qed.

Lemma extends_iff p q :
  extends p q ↔
  ∀ i j, 0 ≤ i < 9 → 0 ≤ j < 9 → cell p i j ≠ 0 → cell q i j = cell p i j.
Proof. apply (forall_coords (λ i j, cell p i j ≠ 0 → cell q i j = cell p i j)). Qed.

Lemma finished_iff q :
  finished q ↔ (∀ i j, 0 ≤ i < 9 → 0 ≤ j < 9 → 1 ≤ cell q i j ≤ 9) ∧ consistent q.
Proof.
  unfold finished. by rewrite (forall_coords (λ i j, 1 ≤ cell q i j ≤ 9)).
Qed.

Lemma complete_true_iff p :
  shape_ok p →
  complete p = Ok true ↔
  (∀ i, 0 ≤ i < 9 → sum (row_cells p i) = 45)
  ∧ (∀ j, 0 ≤ j < 9 → sum (col_cells p j) = 45).
Proof.
  intros Hp.
  destruct (complete_sums p Hp) as (cs & rs & -> & Hl1 & Hl2 & Hc & Hr).
  transitivity (all_45 cs && all_45 rs = true).
  { split; [by intros [= ->]|by intros ->]. }
  rewrite andb_true_iff, (list_9_geti cs Hl1), (list_9_geti rs Hl2), !all_45_fmap.
  split.
  - intros [H1 H2]. split; intros k Hk; [rewrite <- Hr|rewrite <- Hc]; auto.
  - intros [H1 H2]. split; intros k Hk; [rewrite Hc|rewrite Hr]; auto.
Qed.

(** The rows and columns of a finished grid hold the nine digits. *)
Lemma finished_lines q k :
  finished q → 0 ≤ k < 9 → row_cells q k ≡ₚ digits ∧ col_cells q k ≡ₚ digits.
Proof.
  intros [Hr Hcons]%finished_iff Hk. rewrite consistent_iff in Hcons.
  split; apply line_digits.
  - intros j Hj. by apply Hr.
  - intros j j' Hj Hj' Hne. apply Hcons; try done.
    + congruence.
    + by left.
    + pose proof (Hr k j Hk Hj). lia.
  - intros i Hi. by apply Hr.
  - intros i i' Hi Hi' Hne. apply Hcons; try done.
    + congruence.
    + right. by left.
    + pose proof (Hr i k Hi Hk). lia.
Qed.

Lemma sum_app l k : sum (l ++ k) = sum l + sum k.
Proof.
  induction l as [|x l IH]; [done|]. unfold sum in *. cbn [app foldr]. lia.
Qed.

Lemma sum_filter_nonzero l : sum (filter (λ x, x ≠ 0) l) = sum l.
Proof.
  induction l as [|x l IH]; [done|]. rewrite filter_cons. unfold sum in *.
  case_decide; cbn [foldr]; lia.
Qed.

Lemma sum_ge_length l : Forall (λ x, 1 ≤ x) l → Z.of_nat (length l) ≤ sum l.
Proof.
  induction 1 as [|x l Hx _ IH]; [done|]. unfold sum in *. cbn [foldr length]. lia.
Qed.

(** Nine cells in [0..9] whose digits are all different and which sum to
    45 contain no 0. *)
Lemma sum_45_no_zero l :
  length l = 9%nat → Forall (λ x, 0 ≤ x ≤ 9) l →
  NoDup (filter (λ x, x ≠ 0) l) → sum l = 45 → 0 ∉ l.
Proof.
  intros Hl Hr Hnd Hsum H0.
  assert (filter (λ x, x ≠ 0) l ⊆+ digits) as Hsub.
  { apply NoDup_submseteq; [done|]. intros x [Hx Hin]%list_elem_of_filter.
    rewrite Forall_forall in Hr. specialize (Hr x Hin).
    apply elem_of_range2. lia. }
  destruct (submseteq_Permutation _ _ Hsub) as [k Hk].
  pose proof (sum_Permutation _ _ Hk) as Hs.
  rewrite sum_app, sum_filter_nonzero, Hsum in Hs.
  assert (Forall (λ x, 1 ≤ x) k) as Hk1.
  { apply Forall_forall. intros x Hx.
    assert (x ∈ digits) as Hd by (rewrite Hk; apply elem_of_app; by right).
    apply elem_of_range2 in Hd. lia. }
  pose proof (sum_ge_length k Hk1) as Hlen.
  assert (sum digits = 45) as Hd by done. rewrite Hd in Hs.
  assert (k = []) as -> by (destruct k; [done|cbn [length] in Hlen; lia]).
  rewrite app_nil_r in Hk. apply Permutation_length in Hk.
  pose proof (length_filter_lt (λ x, x ≠ 0) l 0 H0) as Hlt.
  assert (length digits = 9%nat) as Hld by done.
  rewrite <- Hk, Hld, Hl in Hlt. lia.
Qed.

Lemma NoDup_filter_fmap (f : Z → Z) ks :
  NoDup ks →
  (∀ k k', k ∈ ks → k' ∈ ks → k ≠ k' → f k ≠ 0 → f k ≠ f k') →
  NoDup (filter (λ x, x ≠ 0) (f <$> ks)).
Proof.
  induction 1 as [|k ks Hk Hnd IH]; intros Hinj; [constructor|].
  cbn [fmap list_fmap]. fold (f <$> ks). rewrite filter_cons. case_decide as H0.
  - constructor.
    + intros [_ (k' & Heq & Hk')%list_elem_of_fmap]%list_elem_of_filter.
      apply (Hinj k k'); [by left|by right| |done|done]. by intros ->.
    + apply IH. intros a b Ha Hb. apply Hinj; by right.
  - apply IH. intros a b Ha Hb. apply Hinj; by right.
Qed.

(** X5.  On a grid of nine rows of nine cells in [0..9] that repeats no
    digit within a row, column or block, [complete()] is [True] exactly
    when no cell is empty: for grids reached through validated writes the
    sum test is exact. *)
Theorem complete_iff_full p :
  shape_ok p → range_ok p → consistent p →
  complete p = Ok true ↔ full p.
Proof.
  intros Hp Hrange Hcons. rewrite complete_true_iff, full_iff by done. split.
  - intros [Hrows _] i j Hi Hj H0.
    pose proof Hcons as Hc. rewrite consistent_iff in Hc.
    apply (sum_45_no_zero (row_cells p i)).
    + unfold row_cells. by rewrite length_fmap.
    + apply Forall_forall.
      intros x (k & -> & Hk%elem_of_range)%list_elem_of_fmap. by apply cell_range.
    + apply NoDup_filter_fmap; [apply NoDup_range|].
      intros k k' Hk%elem_of_range Hk'%elem_of_range Hne Hnz.
      apply Hc; try done; [congruence|by left].
    + by apply Hrows.
    + apply list_elem_of_fmap. exists j. split; [done|]. by apply elem_of_range.
  - intros Hfull.
    assert (finished p) as Hfin.
    { apply finished_iff. split; [|done]. intros i j Hi Hj.
      pose proof (cell_range p i j Hp Hrange Hi Hj). specialize (Hfull i j Hi Hj). lia. }
    split; intros k Hk; destruct (finished_lines p k Hfin Hk) as [Hrow Hcol].
    + by rewrite (sum_Permutation _ _ Hrow).
    + by rewrite (sum_Permutation _ _ Hcol).
Qed.

Lemma complete_iff_full_witness :
  (complete (of_table one_clue) = Ok true ↔ full (of_table one_clue))
  ∧ (complete (of_table first_solution) = Ok true ↔ full (of_table first_solution)).
Proof.
  split.
  - apply (complete_iff_full (of_table one_clue)); compute_done.
  - apply (complete_iff_full (of_table first_solution)); compute_done.
Defined.

(** ** More on what the solver returns *)

Lemma written_distinct p a cells j v :
  distinct_rows p → distinct_rows (written p a cells j v).
Proof. done. Qed.

(** The candidate loop leaves the cells other than its own as they are. *)
Lemma try_candidates_keeps solve_next row col :
  0 ≤ row < 9 → 0 ≤ col < 9 →
  (∀ p' q, shape_ok p' → distinct_rows p' →
     solve_next p' = Some (Ok (Solution q)) →
     ∀ i j, 0 ≤ i < 9 → 0 ≤ j < 9 → cell p' i j ≠ 0 → cell q i j = cell p' i j) →
  ∀ ks, Forall (λ k, 0 ≤ k < 9) ks →
  ∀ p q, shape_ok p → distinct_rows p →
    try_candidates solve_next row col p ks = Some (Ok (Solution q)) →
    ∀ i j, 0 ≤ i < 9 → 0 ≤ j < 9 → (i, j) ≠ (row, col) →
      cell p i j ≠ 0 → cell q i j = cell p i j.
Proof.
  intros Hr Hc Hnext ks Hks.
  induction Hks as [|k ks Hk _ IH]; intros p q Hp Hnd; [done|].
  cbn [try_candidates].
  destruct (setitem_in_range p row col (k + 1) Hp Hr Hc)
    as (a & cells & Ha & Hcells & Hl & ->).
  destruct (check_cells p row col (k + 1)); [|by apply IH].
  set (p1 := written p a cells (Z.to_nat col) (k + 1)).
  assert (shape_ok p1) as Hp1 by by apply written_shape.
  assert (∀ i j, 0 ≤ i < 9 → 0 ≤ j < 9 → (i, j) ≠ (row, col) →
            cell p1 i j = cell p i j) as Hcell.
  { intros i j Hi Hj Hne.
    unfold p1. rewrite (written_cell_distinct p row col (k + 1) a cells) by done.
    rewrite decide_False; [done|]. intros [-> ->]. done. }
  destruct (bool_decide (row = 8) && bool_decide (col = 8)).
  - intros [= <-] i j Hi Hj Hne _. by apply Hcell.
  - destruct (solve_next p1) as [[[q'|]|e]|] eqn:Es; [| |done..].
    + intros [= <-] i j Hi Hj Hne H0.
      rewrite <- (Hcell i j) by done.
      apply (Hnext p1 q'); try done. by rewrite Hcell.
    + intros Hq i j Hi Hj Hne H0.
      rewrite <- (Hcell i j) by done.
      apply (IH p1 q); try done. by rewrite Hcell.
Qed.

Lemma solve_puzzle_keeps fuel :
  ∀ p row col q, shape_ok p → distinct_rows p → cursor row col →
    _solve_puzzle fuel p row col = Some (Ok (Solution q)) →
    ∀ i j, 0 ≤ i < 9 → 0 ≤ j < 9 → cell p i j ≠ 0 → cell q i j = cell p i j.
Proof.
  induction fuel as [|fuel IH]; intros p row col q Hp Hnd Hcur; [done|].
  cbn [_solve_puzzle]. unfold deepcopy.
  destruct Hcur as [[Hr Hc]|[-> ->]].
  2:{ cbn. by intros [= <-]. }
  rewrite !bool_decide_eq_false_2 by lia. cbn [orb].
  rewrite get_cell by done.
  case_bool_decide as H0.
  - apply IH; [done..|]. by apply next_rc_cursor.
  - intros Hq i j Hi Hj Hnz.
    assert ((i, j) ≠ (row, col)) as Hne.
    { intros [= -> ->]. done. }
    revert Hq i j Hi Hj Hne Hnz. apply try_candidates_keeps; try done.
    + intros p' q' Hp' Hnd'. apply IH; [done..|]. by apply next_rc_cursor.
    + apply Forall_forall. by intros k Hk%elem_of_range.
Qed.

(** A grid without an empty cell goes through the solver unchanged. *)
Lemma solve_puzzle_full fuel :
  ∀ p row col, shape_ok p → full p → cursor row col →
    82 - (9 * row + col) ≤ Z.of_nat fuel →
    _solve_puzzle fuel p row col = Some (Ok (Solution p)).
Proof.
  induction fuel as [|fuel IH]; intros p row col Hp Hfull Hcur Hfuel.
  { destruct Hcur; lia. }
  cbn [_solve_puzzle]. unfold deepcopy.
  destruct Hcur as [[Hr Hc]|[-> ->]]; [|done].
  rewrite !bool_decide_eq_false_2 by lia. cbn [orb].
  rewrite get_cell by done.
  rewrite bool_decide_eq_true_2 by (by apply full_iff).
  apply IH; [done..|by apply next_rc_cursor|].
  rewrite next_rc_spec by done. case_decide; cbn [fst snd]; lia.
Qed.

(** The candidate loop does not give up on a grid that has a solution. *)
Lemma try_candidates_complete solve_next row col q :
  0 ≤ row < 9 → 0 ≤ col < 9 → finished q →
  (∀ p', shape_ok p' → distinct_rows p' → extends p' q →
     solve_next p' ≠ Some (Ok PyFalse)) →
  ∀ ks, NoDup ks → Forall (λ k, 0 ≤ k < 9) ks →
  ∀ p, shape_ok p → distinct_rows p →
    (∀ i j, 0 ≤ i < 9 → 0 ≤ j < 9 → (i, j) ≠ (row, col) →
       cell p i j ≠ 0 → cell q i j = cell p i j) →
    cell q row col - 1 ∈ ks →
    (∀ k, k ∈ ks → cell p row col ≠ k + 1) →
    try_candidates solve_next row col p ks ≠ Some (Ok PyFalse).
Proof.
  intros Hr Hc [Hqr Hqc]%finished_iff Hnext ks Hnd Hks.
  rewrite consistent_iff in Hqc.
  induction Hnd as [|k ks Hk Hnd IH]; intros p Hp Hdist Hagree Hin Hstale.
  { by apply elem_of_nil in Hin. }
  apply Forall_cons in Hks as [Hk9 Hks].
  cbn [try_candidates].
  destruct (setitem_in_range p row col (k + 1) Hp Hr Hc)
    as (a & cells & Ha & Hcells & Hl & ->).
  set (p1 := written p a cells (Z.to_nat col) (k + 1)).
  assert (shape_ok p1) as Hp1 by by apply written_shape.
  assert (∀ i j, 0 ≤ i < 9 → 0 ≤ j < 9 →
            cell p1 i j = if decide (i = row ∧ j = col) then k + 1 else cell p i j)
    as Hcell.
  { intros i j Hi Hj. by apply written_cell_distinct. }
  assert (∀ i j, 0 ≤ i < 9 → 0 ≤ j < 9 → (i, j) ≠ (row, col) →
            cell p1 i j ≠ 0 → cell q i j = cell p1 i j) as Hagree1.
  { intros i j Hi Hj Hne. rewrite Hcell by done.
    rewrite decide_False by (intros [-> ->]; done). by apply Hagree. }
  destruct (decide (cell q row col = k + 1)) as [Heq|Hneq].
  - (* the digit of the solution: the check lets it through *)
    assert (check_cells p row col (k + 1) = true) as ->.
    { apply check_cells_true; [done..|]. intros i j Hi Hj Hs Hv.
      destruct (decide ((i, j) = (row, col))) as [[= -> ->]|Hne].
      - apply (Hstale k); [by left|done].
      - assert (cell q i j = cell p i j) as Hq by (apply Hagree; try done; lia).
        apply (Hqc i j row col); try done.
        + pose proof (Hqr i j Hi Hj). lia.
        + congruence. }
    destruct (bool_decide (row = 8) && bool_decide (col = 8)); [done|].
    assert (solve_next p1 ≠ Some (Ok PyFalse)) as Hn.
    { apply Hnext; [done..|]. apply extends_iff. intros i j Hi Hj Hnz.
      destruct (decide ((i, j) = (row, col))) as [[= -> ->]|Hne].
      - rewrite Hcell by done. by rewrite decide_True.
      - by apply Hagree1. }
    by destruct (solve_next p1) as [[[q'|]|e]|].
  - assert (cell q row col - 1 ∈ ks) as Hin'.
    { apply elem_of_cons in Hin as [?|?]; [lia|done]. }
    destruct (check_cells p row col (k + 1)).
    + destruct (bool_decide (row = 8) && bool_decide (col = 8)); [done|].
      destruct (solve_next p1) as [[[q'|]|e]|]; [done| |done..].
      apply IH; try done.
      intros k' Hk'. rewrite Hcell by done. rewrite decide_True by done.
      intros ?. apply Hk. by replace k with k' by lia.
    + apply IH; try done. intros k' Hk'. apply Hstale. by right.
Qed.

Lemma solve_puzzle_complete fuel q :
  finished q →
  ∀ p row col, shape_ok p → distinct_rows p → cursor row col → extends p q →
    _solve_puzzle fuel p row col ≠ Some (Ok PyFalse).
Proof.
  intros Hq. induction fuel as [|fuel IH]; intros p row col Hp Hnd Hcur Hext; [done|].
  cbn [_solve_puzzle]. unfold deepcopy.
  destruct Hcur as [[Hr Hc]|[-> ->]]; [|done].
  rewrite !bool_decide_eq_false_2 by lia. cbn [orb].
  rewrite get_cell by done.
  case_bool_decide as H0.
  - apply IH; [done..|by apply next_rc_cursor|done].
  - assert (cell p row col = 0) as Hz by done.
    pose proof (proj1 (finished_iff q) Hq) as [Hqr _].
    rewrite extends_iff in Hext.
    apply (try_candidates_complete _ row col q); try done.
    + intros p' Hp' Hnd' Hext'. apply IH; [done..|by apply next_rc_cursor|done].
    + apply NoDup_range.
    + apply Forall_forall. by intros k Hk%elem_of_range.
    + intros i j Hi Hj _. by apply Hext.
    + apply elem_of_range. pose proof (Hqr row col Hr Hc). lia.
    + intros k Hk%elem_of_range. lia.
Qed.

(** The grid that a sound search returns is a finished sudoku. *)
Lemma solved_finished q : solver_inv q → filled_before q 9 0 → finished q.
Proof.
  intros Hinv Hf. apply finished_iff. split; [|apply Hinv].
  intros i j Hi Hj. by apply filled_cell.
Qed.

Lemma elem_of_block_coords bi bj a :
  a ∈ block_coords bi bj ↔
  (3 * bi ≤ a.1 < 3 * bi + 3) ∧ (3 * bj ≤ a.2 < 3 * bj + 3).
Proof.
  unfold block_coords. rewrite list_elem_of_bind. split.
  - intros (i & Hb & Hi). apply list_elem_of_bind in Hb as (j & Hb & Hj).
    apply list_elem_of_singleton in Hb as ->.
    apply elem_of_range2 in Hi, Hj. done.
  - destruct a as [i j]. intros [Hi Hj]. exists i. split; [|by apply elem_of_range2].
    apply list_elem_of_bind. exists j. split; [apply list_elem_of_singleton; done|].
    by apply elem_of_range2.
Qed.

Lemma block_coords_NoDup bi bj :
  0 ≤ bi < 3 → 0 ≤ bj < 3 →
  length (block_coords bi bj) = 9%nat ∧ NoDup (block_coords bi bj).
Proof.
  intros Hbi Hbj.
  assert (bi = 0 ∨ bi = 1 ∨ bi = 2) as [->|[->| ->]] by lia;
    assert (bj = 0 ∨ bj = 1 ∨ bj = 2) as [->|[->| ->]] by lia;
    (split; [reflexivity|compute_done]).
Qed.

Lemma block_div i b : 3 * b ≤ i < 3 * b + 3 → i `div` 3 = b.
Proof. intros H. Z.div_mod_to_equations. lia. Qed.

(** Each block of a finished grid holds the digits 1..9. *)
Lemma finished_blocks q bi bj :
  finished q → 0 ≤ bi < 3 → 0 ≤ bj < 3 → block_cells q bi bj ≡ₚ digits.
Proof.
  intros [Hr Hcons]%finished_iff Hbi Hbj. rewrite consistent_iff in Hcons.
  destruct (block_coords_NoDup bi bj Hbi Hbj) as [Hlen Hnd].
  apply digits_Permutation.
  - unfold block_cells. by rewrite length_fmap.
  - apply NoDup_fmap_2_strong; [|done].
    intros [i j] [i' j'] [Hi Hj]%elem_of_block_coords
      [Hi' Hj']%elem_of_block_coords Heq.
    cbn [fst snd] in *.
    destruct (decide ((i, j) = (i', j'))) as [|Hne]; [done|].
    exfalso. apply (Hcons i j i' j'); try done; try lia.
    + right; right. cbn [fst snd].
      by rewrite (block_div i bi), (block_div i' bi), (block_div j bj),
        (block_div j' bj).
    + assert (1 ≤ cell q i j ≤ 9) by (apply Hr; lia). lia.
  - unfold block_cells. apply Forall_fmap, Forall_forall.
    intros [i j] [Hi Hj]%elem_of_block_coords. unfold compose.
    cbn [fst snd] in *. apply Hr; lia.
Qed.

(** X6.  The solver keeps the clues: in the grid it returns, every cell
    that was filled in the puzzle holds the digit it held.  (For a grid
    of nine rows of nine cells whose rows are nine distinct lists.) *)
Theorem solver_keeps_clues fuel p q :
  shape_ok p → distinct_rows p →
  _solve_puzzle fuel p 0 0 = Some (Ok (Solution q)) → extends p q.
Proof.
  intros Hp Hnd Hs. apply extends_iff. intros i j Hi Hj Hnz.
  apply (solve_puzzle_keeps fuel p 0 0 q); try done. left. lia.
Qed.

Lemma solver_keeps_clues_witness :
  _solve_puzzle 82 (of_table one_clue) 0 0
    = Some (Ok (Solution (of_table one_clue_solution)))
  ∧ extends (of_table one_clue) (of_table one_clue_solution).
Proof.
  assert (_solve_puzzle 82 (of_table one_clue) 0 0
            = Some (Ok (Solution (of_table one_clue_solution)))) as Hsolve
    by (vm_compute; reflexivity).
  split; [exact Hsolve|].
  apply (solver_keeps_clues 82 (of_table one_clue) (of_table one_clue_solution));
    [compute_done..|exact Hsolve].
Defined.

(** X7.  What the solver returns for a grid that obeys the rules is a
    finished sudoku: every cell holds a digit 1..9, no digit occurs twice
    in a row, a column or a block, and each 3x3 block holds every digit
    once, so that it sums to 45. *)
Theorem solver_result_finished fuel p q bi bj :
  shape_ok p → range_ok p → distinct_rows p → consistent p →
  _solve_puzzle fuel p 0 0 = Some (Ok (Solution q)) →
  0 ≤ bi < 3 → 0 ≤ bj < 3 →
  finished q
  ∧ sum (block_cells q bi bj) = 45
  ∧ ∀ d, 1 ≤ d ≤ 9 → count d (block_cells q bi bj) = 1%nat.
Proof.
  intros Hp Hrange Hnd Hcons Hs Hbi Hbj.
  destruct (solve_puzzle_sound fuel p 0 0 q) as [Hinv Hf]; try done.
  { apply filled_before_start. }
  { left. lia. }
  pose proof (solved_finished q Hinv Hf) as Hfin.
  split; [done|].
  pose proof (finished_blocks q bi bj Hfin Hbi Hbj) as Hperm.
  rewrite (sum_Permutation _ _ Hperm). split; [apply digits_sum_count|].
  intros d Hd. rewrite (count_Permutation d _ _ Hperm). by apply digits_sum_count.
Qed.

Lemma solver_result_finished_witness :
  finished (of_table one_clue_solution)
  ∧ sum (block_cells (of_table one_clue_solution) 1 2) = 45
  ∧ ∀ d, 1 ≤ d ≤ 9 → count d (block_cells (of_table one_clue_solution) 1 2) = 1%nat.
Proof.
  apply (solver_result_finished 82 (of_table one_clue) (of_table one_clue_solution) 1 2);
    [compute_done..|vm_compute; reflexivity|lia|lia].
Defined.

(** X8.  A grid without an empty cell is returned as it is, whatever its
    digits: the solver reads 81 clues and makes no move, and [solve] leaves
    the puzzle as it was. *)
Theorem full_grid_unchanged fuel p :
  shape_ok p → full p → (82 ≤ fuel)%nat →
  _solve_puzzle fuel p 0 0 = Some (Ok (Solution p))
  ∧ solve fuel p = Some (Ok tt, p).
Proof.
  intros Hp Hfull Hfuel.
  assert (_solve_puzzle fuel p 0 0 = Some (Ok (Solution p))) as Hs.
  { apply solve_puzzle_full; [done..|left; lia|lia]. }
  split; [done|]. unfold solve. rewrite Hs. by destruct p.
Qed.

Lemma full_grid_unchanged_witness :
  _solve_puzzle 82 (of_table (all_of 7)) 0 0 = Some (Ok (Solution (of_table (all_of 7))))
  ∧ solve 82 (of_table (all_of 7)) = Some (Ok tt, of_table (all_of 7)).
Proof.
  apply (full_grid_unchanged 82 (of_table (all_of 7))); [compute_done..|lia].
Defined.

(** X9.  The search is complete: if the puzzle has a solution, a finished
    grid that keeps its clues, then the solver does not return [False] but
    a grid (82 levels of recursion are enough). *)
Theorem solver_finds_solution fuel p q :
  shape_ok p → distinct_rows p → completes p q → (82 ≤ fuel)%nat →
  ∃ q', _solve_puzzle fuel p 0 0 = Some (Ok (Solution q')).
Proof.
  intros Hp Hnd [Hfin Hext] Hfuel.
  destruct (solve_puzzle_total fuel p 0 0) as [[q'|] Hr]; [done|left; lia|lia| |].
  - by exists q'.
  - by destruct (solve_puzzle_complete fuel q Hfin p 0 0 Hp Hnd
                   ltac:(left; lia) Hext).
Qed.

Lemma solver_finds_solution_witness :
  ∃ q', _solve_puzzle 82 (of_table one_clue) 0 0 = Some (Ok (Solution q')).
Proof.
  apply (solver_finds_solution 82 (of_table one_clue) (of_table other_solution));
    [compute_done..|lia].
Defined.

(** X10.  [solve] decides whether a puzzle that obeys the rules has a
    solution: either it ends with the puzzle turned into a finished grid
    that keeps the clues, or it raises [AttributeError], the puzzle is as
    it was and no finished grid keeps its clues. *)
Theorem solve_decides fuel p :
  shape_ok p → range_ok p → distinct_rows p → consistent p → (82 ≤ fuel)%nat →
  (∃ q, solve fuel p = Some (Ok tt, q) ∧ completes p q)
  ∨ (solve fuel p = Some (Raise AttributeError, p) ∧ ∀ q, ¬ completes p q).
Proof.
  intros Hp Hrange Hnd Hcons Hfuel.
  destruct (solve_puzzle_total fuel p 0 0) as [[q|] Hr]; [done|left; lia|lia| |].
  - left. exists q. unfold solve. rewrite Hr. split; [by destruct q|].
    destruct (solve_puzzle_sound fuel p 0 0 q) as [Hinv Hf]; try done.
    { apply filled_before_start. }
    { left. lia. }
    split; [by apply solved_finished|].
    apply extends_iff. intros i j Hi Hj Hnz.
    apply (solve_puzzle_keeps fuel p 0 0 q); try done. left. lia.
  - right. split; [by apply solve_False_raises|].
    intros q [Hfin Hext].
    by destruct (solve_puzzle_complete fuel q Hfin p 0 0 Hp Hnd
                   ltac:(left; lia) Hext).
Qed.

Lemma solve_decides_witness :
  (∃ q, solve 82 (of_table dead_end) = Some (Ok tt, q)
        ∧ completes (of_table dead_end) q)
  ∨ (solve 82 (of_table dead_end) = Some (Raise AttributeError, of_table dead_end)
     ∧ ∀ q, ¬ completes (of_table dead_end) q).
Proof.
  apply (solve_decides 82 (of_table dead_end)); [compute_done..|lia].
Defined.

(** X11.  [solve] followed by [complete]: after a [solve] that returns,
    on a puzzle that obeys the rules, [complete] answers [True]. *)
Theorem solve_then_complete fuel p q :
  shape_ok p → range_ok p → distinct_rows p → consistent p →
  solve fuel p = Some (Ok tt, q) → complete q = Ok true.
Proof.
  intros Hp Hrange Hnd Hcons. unfold solve.
  destruct (_solve_puzzle fuel p 0 0) as [[[s|]|e]|] eqn:Hs; [|done..].
  intros [= <-].
  destruct (solve_puzzle_sound fuel p 0 0 s) as [Hinv Hf]; try done.
  { apply filled_before_start. }
  { left. lia. }
  replace (mkPuzzle (data s) (heap s)) with s by by destruct s.
  apply complete_true_iff; [apply Hinv|].
  split; intros k Hk; destruct (solved_lines s k Hinv Hf Hk) as [Hrow Hcol].
  - rewrite (sum_Permutation _ _ Hrow). apply digits_sum_count.
  - rewrite (sum_Permutation _ _ Hcol). apply digits_sum_count.
Qed.

Lemma solve_then_complete_witness :
  complete (of_table one_clue_solution) = Ok true.
Proof.
  apply (solve_then_complete 82 (of_table one_clue) (of_table one_clue_solution));
    [compute_done..|vm_compute; reflexivity].
Defined.

(** ** Which solution the solver returns *)

Lemma range_9_sorted : StronglySorted Z.lt (range 9).
Proof. rewrite range_9. repeat constructor; lia. Qed.

(** The candidate loop tries the digits in increasing order, and goes
    past a digit only when no solution has it. *)
Lemma try_candidates_first solve_next row col q' :
  0 ≤ row < 9 → 0 ≤ col < 9 → finished q' →
  (∀ p1 q, shape_ok p1 → distinct_rows p1 →
     filled_before p1 (next_rc row col).1 (next_rc row col).2 →
     extends p1 q' → solve_next p1 = Some (Ok (Solution q)) → lex_le q q') →
  (∀ p1, shape_ok p1 → distinct_rows p1 → extends p1 q' →
     solve_next p1 ≠ Some (Ok PyFalse)) →
  (∀ p1 q, shape_ok p1 → distinct_rows p1 →
     solve_next p1 = Some (Ok (Solution q)) →
     ∀ i j, 0 ≤ i < 9 → 0 ≤ j < 9 → cell p1 i j ≠ 0 → cell q i j = cell p1 i j) →
  ∀ ks, StronglySorted Z.lt ks → Forall (λ k, 0 ≤ k < 9) ks →
  ∀ p q, shape_ok p → distinct_rows p → filled_before p row col →
    (∀ i j, 0 ≤ i < 9 → 0 ≤ j < 9 → (i, j) ≠ (row, col) →
       cell p i j ≠ 0 → cell q' i j = cell p i j) →
    cell q' row col - 1 ∈ ks →
    (∀ k, k ∈ ks → cell p row col ≠ k + 1) →
    try_candidates solve_next row col p ks = Some (Ok (Solution q)) →
    lex_le q q'.
Proof.
  intros Hr Hc [Hqr Hqc]%finished_iff Hfirst Hcomplete Hkeeps ks.
  rewrite consistent_iff in Hqc.
  induction ks as [|k ks IH]; intros Hsorted Hks p q Hp Hdist Hf Hagree Hin Hstale.
  { by apply elem_of_nil in Hin. }
  apply StronglySorted_inv in Hsorted as [Hsorted Hlt].
  apply Forall_cons in Hks as [Hk9 Hks].
  rewrite Forall_forall in Hlt.
  cbn [try_candidates].
  destruct (setitem_in_range p row col (k + 1) Hp Hr Hc)
    as (a & cells & Ha & Hcells & Hl & ->).
  set (p1 := written p a cells (Z.to_nat col) (k + 1)).
  assert (shape_ok p1) as Hp1 by by apply written_shape.
  assert (∀ i j, 0 ≤ i < 9 → 0 ≤ j < 9 →
            cell p1 i j = if decide (i = row ∧ j = col) then k + 1 else cell p i j)
    as Hcell.
  { intros i j Hi Hj. by apply written_cell_distinct. }
  assert (cell p1 row col = k + 1) as Htarget.
  { rewrite Hcell by done. by rewrite decide_True. }
  assert (∀ i j, 0 ≤ i < 9 → 0 ≤ j < 9 → (i, j) ≠ (row, col) →
            cell p1 i j = cell p i j) as Hoff.
  { intros i j Hi Hj Hne. rewrite Hcell by done.
    rewrite decide_False; [done|]. intros [-> ->]. done. }
  assert (∀ i j, 0 ≤ i < 9 → 0 ≤ j < 9 → i < row ∨ (i = row ∧ j < col) →
            cell p i j ≠ 0 ∧ cell q' i j = cell p i j ∧ cell p1 i j = cell p i j)
    as Hbefore.
  { intros i j Hi Hj Hb.
    assert ((i, j) ≠ (row, col)) as Hne by (intros [= -> ->]; lia).
    pose proof (Hf i j Hi Hj Hb). split; [done|]. split; [|by apply Hoff].
    by apply Hagree. }
  assert (filled_before p1 row col) as Hf1.
  { intros i j Hi Hj Hb. destruct (Hbefore i j Hi Hj Hb) as (? & _ & ->). done. }
  assert (∀ i j, 0 ≤ i < 9 → 0 ≤ j < 9 → (i, j) ≠ (row, col) →
            cell p1 i j ≠ 0 → cell q' i j = cell p1 i j) as Hagree1.
  { intros i j Hi Hj Hne. rewrite Hoff by done. by apply Hagree. }
  assert (filled_before p1 (next_rc row col).1 (next_rc row col).2) as Hfnext.
  { apply filled_before_next; [done..|]. rewrite Htarget. lia. }
  destruct (decide (cell q' row col = k + 1)) as [Heq|Hneq].
  - (* the digit of [q']: the check lets it through *)
    assert (check_cells p row col (k + 1) = true) as ->.
    { apply check_cells_true; [done..|]. intros i j Hi Hj Hs Hv.
      destruct (decide ((i, j) = (row, col))) as [[= -> ->]|Hne].
      - apply (Hstale k); [by left|done].
      - assert (cell q' i j = cell p i j) as Hq by (apply Hagree; try done; lia).
        apply (Hqc i j row col); try done.
        + pose proof (Hqr i j Hi Hj). lia.
        + congruence. }
    assert (extends p1 q') as Hext1.
    { apply extends_iff. intros i j Hi Hj Hnz.
      destruct (decide ((i, j) = (row, col))) as [[= -> ->]|Hne].
      - by rewrite Htarget.
      - by apply Hagree1. }
    destruct (bool_decide (row = 8) && bool_decide (col = 8)) eqn:Elast.
    + intros [= <-]. left. intros i j Hi Hj.
      apply andb_prop in Elast as [->%bool_decide_eq_true_1 ->%bool_decide_eq_true_1].
      destruct (decide ((i, j) = (8, 8))) as [[= -> ->]|Hne]; [by rewrite Htarget|].
      assert (i < 8 ∨ (i = 8 ∧ j < 8)) as Hb.
      { destruct (decide (i = 8)) as [->|]; [|lia]. right. split; [done|].
        destruct (decide (j = 8)) as [->|]; [done|lia]. }
      destruct (Hbefore i j Hi Hj Hb) as (_ & -> & ->). done.
    + destruct (solve_next p1) as [[[q0|]|e]|] eqn:Es; [| |done..].
      * intros [= <-]. by apply (Hfirst p1 q0).
      * by destruct (Hcomplete p1).
  - assert (cell q' row col - 1 ∈ ks) as Hin'.
    { apply elem_of_cons in Hin as [?|?]; [lia|done]. }
    assert (k + 1 < cell q' row col) as Hgt.
    { pose proof (Hlt _ Hin'). lia. }
    assert (∀ q0, cell q0 row col = k + 1 →
              (∀ i j, 0 ≤ i < 9 → 0 ≤ j < 9 → i < row ∨ (i = row ∧ j < col) →
                 cell q0 i j = cell p1 i j) → lex_le q0 q') as Hless.
    { intros q0 Hq0 Hq0b. right. exists row, col. split; [done|].
      split; [lia|]. intros i j Hi Hj Hb.
      destruct (Hbefore i j Hi Hj Hb) as (_ & -> & <-). by apply Hq0b. }
    destruct (check_cells p row col (k + 1)).
    + destruct (bool_decide (row = 8) && bool_decide (col = 8)).
      { intros [= <-]. by apply Hless. }
      destruct (solve_next p1) as [[[q0|]|e]|] eqn:Es; [| |done..].
      * intros [= <-]. apply Hless.
        -- rewrite <- Htarget. apply (Hkeeps p1 q0); try done. rewrite Htarget. lia.
        -- intros i j Hi Hj Hb. apply (Hkeeps p1 q0); try done. by apply Hf1.
      * apply IH; try done.
        intros k' Hk'. rewrite Htarget. pose proof (Hlt _ Hk'). lia.
    + apply IH; try done. intros k' Hk'. apply Hstale. by right.
Qed.

Lemma solve_puzzle_first fuel q' :
  finished q' →
  ∀ p row col q, shape_ok p → distinct_rows p → cursor row col →
    filled_before p row col → extends p q' →
    _solve_puzzle fuel p row col = Some (Ok (Solution q)) → lex_le q q'.
Proof.
  intros Hq'. induction fuel as [|fuel IH]; intros p row col q Hp Hnd Hcur Hf Hext;
    [done|].
  cbn [_solve_puzzle]. unfold deepcopy.
  pose proof (proj1 (extends_iff p q') Hext) as Hext'.
  destruct Hcur as [[Hr Hc]|[-> ->]].
  2:{ cbn. intros [= <-]. left. intros i j Hi Hj. symmetry. apply Hext'; [done..|].
      apply Hf; [done..|]. lia. }
  rewrite !bool_decide_eq_false_2 by lia. cbn [orb].
  rewrite get_cell by done.
  case_bool_decide as H0.
  - apply IH; [done..|by apply next_rc_cursor| |done].
    by apply filled_before_next.
  - pose proof (proj1 (finished_iff q') Hq') as [Hqr _].
    apply (try_candidates_first _ row col q'); try done.
    + intros p1 q1 Hp1 Hnd1 Hf1 Hext1. apply IH; [done..|by apply next_rc_cursor|done|done].
    + intros p1 Hp1 Hnd1 Hext1.
      apply (solve_puzzle_complete fuel q'); [done..|by apply next_rc_cursor|done].
    + intros p1 q1 Hp1 Hnd1. apply solve_puzzle_keeps; [done..|by apply next_rc_cursor].
    + apply range_9_sorted.
    + apply Forall_forall. by intros k Hk%elem_of_range.
    + intros i j Hi Hj _. by apply Hext'.
    + apply elem_of_range. pose proof (Hqr row col Hr Hc). lia.
    + intros k Hk%elem_of_range. lia.
Qed.

(** X12.  The solver returns the first solution in row-major order: any
    finished grid that keeps the clues of the puzzle is the returned grid,
    or has a larger digit than it in the first cell in which they
    differ. *)
Theorem solver_first_solution fuel p q q' :
  shape_ok p → distinct_rows p →
  _solve_puzzle fuel p 0 0 = Some (Ok (Solution q)) →
  completes p q' → lex_le q q'.
Proof.
  intros Hp Hnd Hs [Hfin Hext].
  apply (solve_puzzle_first fuel q' Hfin p 0 0 q); try done.
  - left. lia.
  - apply filled_before_start.
Qed.

Lemma solver_first_solution_witness :
  lex_le (of_table one_clue_solution) (of_table other_solution).
Proof.
  apply (solver_first_solution 82 (of_table one_clue));
    [compute_done|compute_done|vm_compute; reflexivity|compute_done].
Defined.

(** ** The cursor of the search *)

(** X13.  [next_rc] walks the grid in row-major order: [n] steps from the
    top left corner lead to row [n div 9], column [n mod 9]; so the 81st
    step leads to (9, 0), where the search ends. *)
Theorem next_rc_row_major (n : nat) :
  Nat.iter n (λ rc, next_rc rc.1 rc.2) (0, 0)
    = (Z.of_nat n `div` 9, Z.of_nat n `mod` 9).
Proof.
  induction n as [|n IH]; [done|].
  rewrite Nat.iter_succ, IH. cbn [fst snd].
  rewrite next_rc_spec by (apply Z.mod_pos_bound; lia).
  case_decide as E; f_equal; Z.div_mod_to_equations; lia.
Qed.

(** ** The picture of a grid *)

Lemma cell_str_glyph c :
  0 ≤ int_of c ≤ 9 → c ≠ Bool true → cell_str c = [glyph (int_of c)].
Proof.
  intros H Hne. destruct c as [z|[]]; [|done|reflexivity].
  cbn [int_of] in H.
  assert (z = 0 ∨ z = 1 ∨ z = 2 ∨ z = 3 ∨ z = 4 ∨ z = 5 ∨ z = 6 ∨ z = 7 ∨ z = 8
          ∨ z = 9) as Hc by lia.
  repeat destruct Hc as [->|Hc]; try subst z; reflexivity.
Qed.

(** The token of a cell: not empty, without space or newline, and enough
    to tell the value of the cell. *)
Lemma cell_str_token c :
  0 ≤ int_of c ≤ 9 →
  token_value (cell_str c) = int_of c
  ∧ cell_str c ≠ [] ∧ (32 ∉ cell_str c) ∧ (10 ∉ cell_str c).
Proof.
  intros H. destruct c as [z|[]]; [|repeat split; compute_done..].
  cbn [int_of] in H.
  assert (z = 0 ∨ z = 1 ∨ z = 2 ∨ z = 3 ∨ z = 4 ∨ z = 5 ∨ z = 6 ∨ z = 7 ∨ z = 8
          ∨ z = 9) as Hc by lia.
  repeat destruct Hc as [->|Hc]; try subst z; repeat split; compute_done.
Qed.

Lemma cell_str_inj c c' :
  0 ≤ int_of c ≤ 9 → 0 ≤ int_of c' ≤ 9 →
  cell_str c = cell_str c' → int_of c = int_of c'.
Proof.
  intros Hc Hc' Heq.
  destruct (cell_str_token c Hc) as [<- _].
  destruct (cell_str_token c' Hc') as [<- _].
  by rewrite Heq.
Qed.

Lemma Forall_insert_at {A} (P : A → Prop) l i x :
  Forall P l → P x → Forall P (insert_at l i x).
Proof.
  intros Hl Hx. unfold insert_at. apply Forall_app. split.
  - by apply Forall_take.
  - constructor; [done|]. by apply Forall_drop.
Qed.

Lemma length_insert_at {A} (l : list A) i x :
  length (insert_at l i x) = S (length l).
Proof.
  unfold insert_at. rewrite length_app. cbn [length].
  rewrite length_take, length_drop. lia.
Qed.

Lemma app_cons_inj (c : Z) (x x' r r' : str) :
  c ∉ x → c ∉ x' → x ++ c :: r = x' ++ c :: r' → x = x' ∧ r = r'.
Proof.
  revert x'. induction x as [|a x IH]; intros [|a' x'] Hx Hx' H; cbn [app] in H.
  - by injection H as ->.
  - injection H as -> _. exfalso. apply Hx'. by left.
  - injection H as -> _. exfalso. apply Hx. by left.
  - injection H as -> H. apply not_elem_of_cons in Hx as [_ Hx], Hx' as [_ Hx'].
    by destruct (IH x' Hx Hx' H) as [-> ->].
Qed.

(** A joined string is cut in one way at a separator that no part has. *)
Lemma join_inj (c : Z) (l l' : list str) :
  length l = length l' →
  Forall (λ t, c ∉ t) l → Forall (λ t, c ∉ t) l' →
  join [c] l = join [c] l' → l = l'.
Proof.
  revert l'. induction l as [|x l IH]; intros [|x' l'] Hlen Hl Hl' H; try done.
  apply Forall_cons in Hl as [Hx Hl]. apply Forall_cons in Hl' as [Hx' Hl'].
  cbn [join] in H. destruct l as [|y l], l' as [|y' l']; try done.
  - by subst.
  - cbn [app] in H. apply app_cons_inj in H as [-> H]; [|done..].
    f_equal. apply IH; try done. cbn [length] in Hlen |- *. lia.
Qed.

Lemma join_not_elem (c : Z) (sep : str) (l : list str) :
  c ∉ sep → Forall (λ t, c ∉ t) l → c ∉ join sep l.
Proof.
  intros Hsep. induction 1 as [|x l Hx Hl IH]; cbn [join].
  - apply not_elem_of_nil.
  - destruct l as [|y l]; [done|]. rewrite !not_elem_of_app. done.
Qed.

Lemma join_length_ge (sep : Z) (l : list str) :
  Forall (λ t : str, t ≠ []) l → l ≠ [] →
  (2 * length l ≤ length (join [sep] l) + 1)%nat.
Proof.
  induction 1 as [|x l Hx Hl IH]; [done|]. intros _.
  destruct x as [|a x]; [done|]. destruct l as [|y l].
  - cbn [join length]. lia.
  - specialize (IH ltac:(done)).
    change (join [sep] ((a :: x) :: y :: l))
      with ((a :: x) ++ sep :: join [sep] (y :: l)).
    rewrite length_app. cbn [length] in *. lia.
Qed.

(** A line of cells: its tokens, and what it looks like. *)
Lemma line_of_tokens r :
  length r = 9%nat → Forall (λ c, 0 ≤ int_of c ≤ 9) r →
  (10 ∉ line_of r) ∧ (21 ≤ length (line_of r))%nat.
Proof.
  intros Hl Hr. unfold line_of.
  assert (Forall (λ t, t ≠ [] ∧ (32 ∉ t) ∧ (10 ∉ t)) (cell_str <$> r)) as Htok.
  { apply Forall_fmap. eapply Forall_impl; [exact Hr|].
    intros c Hc. unfold compose. by destruct (cell_str_token c Hc) as (_ & ? & ? & ?). }
  assert (Forall (λ t, t ≠ [] ∧ (32 ∉ t) ∧ (10 ∉ t))
            (insert_at (insert_at (cell_str <$> r) 6 [9474]) 3 [9474])) as Htok'.
  { repeat apply Forall_insert_at; try done; repeat split; compute_done. }
  split.
  - apply join_not_elem; [compute_done|].
    eapply Forall_impl; [exact Htok'|]. by intros t (_ & _ & ?).
  - pose proof (join_length_ge 32
      (insert_at (insert_at (cell_str <$> r) 6 [9474]) 3 [9474])) as Hge.
    rewrite !length_insert_at, length_fmap, Hl in Hge.
    assert (insert_at (insert_at (cell_str <$> r) 6 [9474]) 3 [9474] ≠ []) as Hne.
    { intros E. apply (f_equal length) in E.
      rewrite !length_insert_at in E. done. }
    specialize (Hge ltac:(eapply Forall_impl; [exact Htok'|]; by intros t (? & _)) Hne).
    lia.
Qed.

Lemma insert_at_tokens (t0 t1 t2 t3 t4 t5 t6 t7 t8 b : str) :
  insert_at (insert_at [t0; t1; t2; t3; t4; t5; t6; t7; t8] 6 b) 3 b
  = [t0; t1; t2; b; t3; t4; t5; b; t6; t7; t8].
Proof. reflexivity. Qed.

Lemma line_of_inj r r' :
  length r = 9%nat → Forall (λ c, 0 ≤ int_of c ≤ 9) r →
  length r' = 9%nat → Forall (λ c, 0 ≤ int_of c ≤ 9) r' →
  line_of r = line_of r' → int_of <$> r = int_of <$> r'.
Proof.
  intros Hl Hr Hl' Hr' Heq. unfold line_of in Heq.
  apply join_inj in Heq.
  - do 9 (destruct r as [|? r]; [done|]). destruct r; [|done].
    do 9 (destruct r' as [|? r']; [done|]). destruct r'; [|done].
    repeat match goal with H : Forall _ (_ :: _) |- _ =>
      apply Forall_cons in H as [? H] end.
    cbn [fmap list_fmap] in Heq |- *. rewrite !insert_at_tokens in Heq.
    injection Heq as E0 E1 E2 E3 E4 E5 E6 E7 E8.
    apply cell_str_inj in E0, E1, E2, E3, E4, E5, E6, E7, E8; [|done..].
    congruence.
  - by rewrite !length_insert_at, !length_fmap, Hl, Hl'.
  - repeat apply Forall_insert_at; try compute_done.
    apply Forall_fmap. eapply Forall_impl; [exact Hr|].
    intros c Hc. unfold compose. by destruct (cell_str_token c Hc) as (_ & ? & ? & ?).
  - repeat apply Forall_insert_at; try compute_done.
    apply Forall_fmap. eapply Forall_impl; [exact Hr'|].
    intros c Hc. unfold compose. by destruct (cell_str_token c Hc) as (_ & ? & ? & ?).
Qed.

Lemma line_of_spec r :
  length r = 9%nat → Forall (λ c, 0 ≤ int_of c ≤ 9) r →
  Forall (λ c, c ≠ Bool true) r →
  length (line_of r) = 21%nat
  ∧ (∀ j, 0 ≤ j < 9 →
       line_of r !! Z.to_nat (2 * (j + j `div` 3))
         = glyph <$> (int_of <$> r) !! Z.to_nat j)
  ∧ line_of r !! 6%nat = Some 9474 ∧ line_of r !! 14%nat = Some 9474
  ∧ (∀ k, 0 ≤ k < 10 → line_of r !! Z.to_nat (2 * k + 1) = Some 32).
Proof.
  intros Hl Hr Hplain.
  do 9 (destruct r as [|? r]; [done|]). destruct r; [|done].
  repeat match goal with H : Forall _ (_ :: _) |- _ =>
    apply Forall_cons in H as [? H] end.
  unfold line_of. cbn [fmap list_fmap]. rewrite !cell_str_glyph by done.
  split; [reflexivity|]. split.
  { intros j Hj.
    assert (j = 0 ∨ j = 1 ∨ j = 2 ∨ j = 3 ∨ j = 4 ∨ j = 5 ∨ j = 6 ∨ j = 7 ∨ j = 8)
      as Hc by lia.
    repeat destruct Hc as [->|Hc]; try subst j; reflexivity. }
  split; [reflexivity|]. split; [reflexivity|].
  intros k Hk.
  assert (k = 0 ∨ k = 1 ∨ k = 2 ∨ k = 3 ∨ k = 4 ∨ k = 5 ∨ k = 6 ∨ k = 7 ∨ k = 8
          ∨ k = 9) as Hc by lia.
  repeat destruct Hc as [->|Hc]; try subst k; reflexivity.
Qed.

Lemma bar_of_no_newline n : 10 ∉ bar_of n.
Proof.
  unfold bar_of. apply join_not_elem; [apply not_elem_of_nil|].
  repeat apply Forall_insert; try compute_done.
  apply Forall_replicate. compute_done.
Qed.

Lemma bar_of_21 : bar_of 21 = bar_line.
Proof. reflexivity. Qed.

(** What [str_rows] returns, for nine rows with a first line of at least
    15 characters. *)
Lemma str_rows_framed rows r0 :
  length rows = 9%nat → rows !! 0%nat = Some r0 →
  (14 < length (line_of r0))%nat →
  str_rows rows
    = Ok (join [10] (framed (bar_of (length (line_of r0))) (line_of <$> rows))).
Proof.
  intros Hl H0 Hlen.
  do 9 (destruct rows as [|? rows]; [done|]). destruct rows; [|done].
  injection H0 as ->.
  unfold str_rows, framed. cbn [fmap list_fmap].
  repeat match goal with r : list intobj |- _ =>
    progress fold (line_of r) end.
  generalize dependent (line_of r0). intros s Hs.
  unfold getitem. cbn [length]. change (norm_index 9 0) with (Some 0%nat).
  cbn [lookup list_lookup mbind result_bind].
  unfold setitem. rewrite length_replicate, norm_index_nonneg by lia.
  cbn [mbind result_bind].
  rewrite length_insert, length_replicate, norm_index_nonneg by lia.
  reflexivity.
Qed.

Lemma framed_explicit (b s0 s1 s2 s3 s4 s5 s6 s7 s8 : str) :
  framed b [s0; s1; s2; s3; s4; s5; s6; s7; s8]
  = [s0; s1; s2; b; s3; s4; s5; b; s6; s7; s8].
Proof. reflexivity. Qed.

Lemma str_rows_Ok rows :
  rows_ok rows →
  ∃ r0, rows !! 0%nat = Some r0
    ∧ str_rows rows
      = Ok (join [10] (framed (bar_of (length (line_of r0))) (line_of <$> rows))).
Proof.
  intros [Hl Hrows].
  destruct (lookup_lt_is_Some_2 rows 0) as [r0 H0]; [lia|].
  exists r0. split; [done|]. apply str_rows_framed; [done..|].
  rewrite Forall_forall in Hrows.
  destruct (Hrows r0) as [Hl0 Hr0]; [by eapply list_elem_of_lookup_2|].
  destruct (line_of_tokens r0 Hl0 Hr0) as [_ ?]. lia.
Qed.

Lemma str_rows_inj rows rows' :
  rows_ok rows → rows_ok rows' → str_rows rows = str_rows rows' →
  (λ r : list intobj, int_of <$> r) <$> rows
  = (λ r : list intobj, int_of <$> r) <$> rows'.
Proof.
  intros Hok Hok' Heq.
  destruct (str_rows_Ok rows Hok) as (r0 & _ & E).
  destruct (str_rows_Ok rows' Hok') as (r0' & _ & E').
  rewrite E, E' in Heq. injection Heq as Heq.
  destruct Hok as [Hl Hrows], Hok' as [Hl' Hrows'].
  assert (∀ b rs, Forall (λ r, length r = 9%nat ∧ Forall (λ c, 0 ≤ int_of c ≤ 9) r) rs →
            Forall (λ t, 10 ∉ t) (framed (bar_of b) (line_of <$> rs))) as Hnl.
  { intros b rs Hrs. unfold framed.
    repeat apply Forall_insert_at; try apply bar_of_no_newline.
    apply Forall_fmap. eapply Forall_impl; [exact Hrs|].
    intros r [Hr1 Hr2]. unfold compose. by destruct (line_of_tokens r Hr1 Hr2). }
  apply join_inj in Heq; [|by unfold framed; rewrite !length_insert_at, !length_fmap, Hl, Hl'|by apply Hnl..].
  clear E E' Hnl.
  do 9 (destruct rows as [|? rows]; [done|]). destruct rows; [|done].
  do 9 (destruct rows' as [|? rows']; [done|]). destruct rows'; [|done].
  repeat match goal with H : Forall _ (_ :: _) |- _ =>
    apply Forall_cons in H as [[? ?] H] end.
  cbn [fmap list_fmap] in Heq |- *. rewrite !framed_explicit in Heq.
  injection Heq as E0 E1 E2 _ E3 E4 E5 _ E6 E7 E8.
  apply line_of_inj in E0, E1, E2, E3, E4, E5, E6, E7, E8; [|done..].
  congruence.
Qed.

Lemma table_values o :
  table (values o) = (λ r : list intobj, int_of <$> r) <$> otable o.
Proof.
  unfold table, values, otable. cbn [data heap].
  rewrite <- list_fmap_compose. apply list_fmap_ext. intros _ a _.
  unfold compose. rewrite lookup_fmap. by destruct (oheap o !! a).
Qed.

(** The rows that [__str__] reads from a well-shaped puzzle. *)
Lemma obj_rows o :
  shape_ok (values o) → range_ok (values o) →
  mapM (deref_obj o) (odata o) = Ok (otable o) ∧ rows_ok (otable o).
Proof.
  intros (Hlen & Hsome & Hrows) Hrange. unfold range_ok in Hrange.
  rewrite table_values in Hrows, Hrange. cbn [values data heap] in *.
  split; [|split].
  - unfold otable. clear Hlen Hrows Hrange.
    induction Hsome as [|a l Ha _ IH]; [done|].
    rewrite lookup_fmap in Ha. apply fmap_is_Some in Ha as [cells Ha].
    cbn [mapM]. rewrite IH. unfold deref_obj. rewrite Ha.
    cbn [mbind result_bind mret result_ret fmap list_fmap]. by rewrite Ha.
  - unfold otable. by rewrite length_fmap.
  - apply Forall_fmap in Hrows.
    apply (proj1 (Forall_fmap (λ r : list intobj, int_of <$> r) _ (otable o)))
      in Hrange.
    rewrite Forall_forall in Hrows, Hrange |- *. intros r Hr.
    specialize (Hrows r Hr). specialize (Hrange r Hr). unfold compose in *.
    rewrite length_fmap in Hrows. split; [done|]. by apply Forall_fmap in Hrange.
Qed.

Lemma join_lookup n (lines : list str) :
  Forall (λ l, length l = n) lines →
  ∀ a l, lines !! a = Some l →
    (∀ b, (b < n)%nat → join [10] lines !! (a * S n + b)%nat = l !! b)
    ∧ (is_Some (lines !! S a) → join [10] lines !! (a * S n + n)%nat = Some 10).
Proof.
  induction 1 as [|x lines Hx Hlines IH]; intros a l Ha; [done|].
  cbn [join]. destruct lines as [|y lines].
  { destruct a as [|a]; [|done]. injection Ha as ->. split.
    - intros b Hb. done.
    - intros [? [=]]. }
  destruct a as [|a].
  - injection Ha as ->. split.
    + intros b Hb. cbn [Nat.mul Nat.add]. apply lookup_app_l. lia.
    + intros _. cbn [Nat.mul Nat.add]. rewrite lookup_app_r by lia.
      by rewrite Hx, Nat.sub_diag.
  - cbn [lookup list_lookup] in Ha. destruct (IH a l Ha) as [IH1 IH2]. split.
    + intros b Hb. rewrite lookup_app_r by lia.
      replace (S a * S n + b - length x)%nat with (S (a * S n + b)) by lia.
      by apply IH1.
    + intros Hs. rewrite lookup_app_r by lia.
      replace (S a * S n + n - length x)%nat with (S (a * S n + n)) by lia.
      by apply IH2.
Qed.

Lemma join_length n (lines : list str) :
  Forall (λ l, length l = n) lines →
  length (join [10] lines) = (length lines * S n - 1)%nat.
Proof.
  induction 1 as [|x lines Hx Hlines IH]; [done|].
  cbn [join]. destruct lines as [|y lines].
  { cbn [length]. lia. }
  rewrite !length_app, IH. cbn [length]. lia.
Qed.

Lemma bar_line_spec :
  length bar_line = 21%nat
  ∧ ∀ k, 0 ≤ k < 21 →
      bar_line !! Z.to_nat k = Some (if decide (k = 6 ∨ k = 14) then 9532 else 9472).
Proof.
  split; [reflexivity|]. intros k Hk.
  assert (k = 0 ∨ k = 1 ∨ k = 2 ∨ k = 3 ∨ k = 4 ∨ k = 5 ∨ k = 6 ∨ k = 7 ∨ k = 8
          ∨ k = 9 ∨ k = 10 ∨ k = 11 ∨ k = 12 ∨ k = 13 ∨ k = 14 ∨ k = 15 ∨ k = 16
          ∨ k = 17 ∨ k = 18 ∨ k = 19 ∨ k = 20) as Hc by lia.
  repeat destruct Hc as [->|Hc]; try subst k; reflexivity.
Qed.

Lemma framed_spec b (lines : list str) :
  length lines = 9%nat →
  length (framed b lines) = 11%nat
  ∧ framed b lines !! 3%nat = Some b ∧ framed b lines !! 7%nat = Some b
  ∧ ∀ i, 0 ≤ i < 9 → framed b lines !! Z.to_nat (i + i `div` 3) = lines !! Z.to_nat i.
Proof.
  intros Hl.
  do 9 (destruct lines as [|? lines]; [done|]). destruct lines; [|done].
  split; [reflexivity|]. split; [reflexivity|]. split; [reflexivity|].
  intros i Hi.
  assert (i = 0 ∨ i = 1 ∨ i = 2 ∨ i = 3 ∨ i = 4 ∨ i = 5 ∨ i = 6 ∨ i = 7 ∨ i = 8)
    as Hc by lia.
  repeat destruct Hc as [->|Hc]; try subst i; reflexivity.
Qed.

(** The lines of the picture of a well-formed grid without [True]. *)
Lemma str_lines o :
  shape_ok (values o) → range_ok (values o) → plain o →
  ∃ lines, __str__ o = Ok (join [10] lines)
    ∧ length lines = 11%nat
    ∧ Forall (λ l, length l = 21%nat) lines
    ∧ lines !! 3%nat = Some bar_line ∧ lines !! 7%nat = Some bar_line
    ∧ ∀ i, 0 ≤ i < 9 →
        ∃ r, table (values o) !! Z.to_nat i = Some (int_of <$> r)
             ∧ length r = 9%nat
             ∧ Forall (λ c, 0 ≤ int_of c ≤ 9) r
             ∧ Forall (λ c, c ≠ Bool true) r
             ∧ lines !! Z.to_nat (i + i `div` 3) = Some (line_of r).
Proof.
  intros Hp Hrange Hplain.
  destruct (obj_rows o Hp Hrange) as [Hread [Hl9 Hrows]].
  destruct (str_rows_Ok (otable o)) as (r0 & H0 & Hstr); [done|].
  unfold plain in Hplain. rewrite Forall_forall in Hrows, Hplain.
  assert (Forall (λ r, length (line_of r) = 21%nat) (otable o)) as Hlines.
  { apply Forall_forall. intros r Hr. destruct (Hrows r Hr) as [? ?].
    apply line_of_spec; auto. }
  assert (length (line_of r0) = 21%nat) as H21.
  { rewrite Forall_forall in Hlines. apply Hlines. by eapply list_elem_of_lookup_2. }
  rewrite H21, bar_of_21 in Hstr.
  assert (length (line_of <$> otable o) = 9%nat) as Hl9' by by rewrite length_fmap.
  destruct (framed_spec bar_line (line_of <$> otable o) Hl9') as (Hl11 & H3 & H7 & Hrow).
  exists (framed bar_line (line_of <$> otable o)).
  split.
  { unfold __str__. rewrite Hread. done. }
  split; [done|]. split.
  { unfold framed. repeat apply Forall_insert_at; try reflexivity.
    by apply Forall_fmap. }
  split; [done|]. split; [done|].
  intros i Hi.
  destruct (lookup_lt_is_Some_2 (otable o) (Z.to_nat i)) as [r Hr]; [lia|].
  pose proof (list_elem_of_lookup_2 _ _ _ Hr) as Hin.
  destruct (Hrows r Hin) as [Hr9 Hrr].
  exists r. split.
  { by rewrite table_values, list_lookup_fmap, Hr. }
  split; [done|]. split; [done|]. split; [by apply Hplain|].
  rewrite Hrow by done. by rewrite list_lookup_fmap, Hr.
Qed.

Lemma str_cells o :
  shape_ok (values o) → range_ok (values o) → plain o →
  ∃ s, __str__ o = Ok s ∧ length s = 241%nat
    ∧ ∀ i j, 0 ≤ i < 9 → 0 ≤ j < 9 →
        s !! cell_offset i j = Some (glyph (cell (values o) i j)).
Proof.
  intros Hp Hrange Hplain.
  destruct (str_lines o Hp Hrange Hplain) as (lines & Hs & Hl & Hlen & _ & _ & Hrow).
  exists (join [10] lines). split; [done|]. split.
  { rewrite (join_length 21) by done. rewrite Hl. done. }
  intros i j Hi Hj.
  destruct (Hrow i Hi) as (r & Ht & Hr9 & Hr & Hpl & Hline).
  destruct (join_lookup 21 lines Hlen _ _ Hline) as [Hjoin _].
  destruct (line_of_spec r Hr9 Hr Hpl) as (_ & Hcells & _).
  assert (i `div` 3 = 0 ∨ i `div` 3 = 1 ∨ i `div` 3 = 2) as Hdi
    by (Z.div_mod_to_equations; lia).
  assert (j `div` 3 = 0 ∨ j `div` 3 = 1 ∨ j `div` 3 = 2) as Hdj
    by (Z.div_mod_to_equations; lia).
  unfold cell_offset.
  replace (Z.to_nat (22 * (i + i `div` 3) + 2 * (j + j `div` 3)))
    with (Z.to_nat (i + i `div` 3) * 22 + Z.to_nat (2 * (j + j `div` 3)))%nat by lia.
  rewrite Hjoin by lia. rewrite Hcells by done.
  pose proof (cell_lookup (values o) (Z.to_nat i) (Z.to_nat j) _ Ht) as Hc.
  rewrite !Z2Nat.id in Hc by lia. rewrite Hc by (rewrite length_fmap; lia). done.
Qed.

Lemma str_separators o :
  shape_ok (values o) → range_ok (values o) → plain o →
  ∃ s, __str__ o = Ok s
    ∧ (∀ a, 0 ≤ a < 10 → s !! Z.to_nat (22 * a + 21) = Some 10)
    ∧ (∀ a k, a = 3 ∨ a = 7 → 0 ≤ k < 21 →
         s !! Z.to_nat (22 * a + k)
           = Some (if decide (k = 6 ∨ k = 14) then 9532 else 9472))
    ∧ (∀ i k, 0 ≤ i < 9 → 0 ≤ k < 10 →
         s !! Z.to_nat (22 * (i + i `div` 3) + (2 * k + 1)) = Some 32)
    ∧ (∀ i k, 0 ≤ i < 9 → k = 6 ∨ k = 14 →
         s !! Z.to_nat (22 * (i + i `div` 3) + k) = Some 9474).
Proof.
  intros Hp Hrange Hplain.
  destruct (str_lines o Hp Hrange Hplain)
    as (lines & Hs & Hl & Hlen & H3 & H7 & Hrow).
  exists (join [10] lines). split; [done|].
  destruct bar_line_spec as [_ Hbar].
  split; [|split; [|split]].
  - intros a Ha.
    destruct (lookup_lt_is_Some_2 lines (Z.to_nat a)) as [l Hline]; [lia|].
    destruct (join_lookup 21 lines Hlen _ _ Hline) as [_ Hnl].
    replace (Z.to_nat (22 * a + 21)) with (Z.to_nat a * 22 + 21)%nat by lia.
    apply Hnl. apply lookup_lt_is_Some_2. lia.
  - intros a k Ha Hk.
    assert (lines !! Z.to_nat a = Some bar_line) as Hline by by destruct Ha as [-> | ->].
    destruct (join_lookup 21 lines Hlen _ _ Hline) as [Hjoin _].
    replace (Z.to_nat (22 * a + k)) with (Z.to_nat a * 22 + Z.to_nat k)%nat by lia.
    rewrite Hjoin by lia. by apply Hbar.
  - intros i k Hi Hk.
    destruct (Hrow i Hi) as (r & Ht & Hr9 & Hr & Hpl & Hline).
    destruct (join_lookup 21 lines Hlen _ _ Hline) as [Hjoin _].
    destruct (line_of_spec r Hr9 Hr Hpl) as (_ & _ & _ & _ & Hsp).
    assert (0 ≤ i `div` 3) by (Z.div_mod_to_equations; lia).
    replace (Z.to_nat (22 * (i + i `div` 3) + (2 * k + 1)))
      with (Z.to_nat (i + i `div` 3) * 22 + Z.to_nat (2 * k + 1))%nat by lia.
    rewrite Hjoin by lia. by apply Hsp.
  - intros i k Hi Hk.
    destruct (Hrow i Hi) as (r & Ht & Hr9 & Hr & Hpl & Hline).
    destruct (join_lookup 21 lines Hlen _ _ Hline) as [Hjoin _].
    destruct (line_of_spec r Hr9 Hr Hpl) as (_ & _ & H6 & H14 & _).
    assert (0 ≤ i `div` 3) by (Z.div_mod_to_equations; lia).
    replace (Z.to_nat (22 * (i + i `div` 3) + k))
      with (Z.to_nat (i + i `div` 3) * 22 + Z.to_nat k)%nat by lia.
    rewrite Hjoin by lia. by destruct Hk as [-> | ->].
Qed.

(** X14.  The picture of a grid shows its cells: for a grid of nine rows
    of nine cells in [0..9], none of them the object [True], [__str__]
    returns a string of 241 characters (eleven lines of 21, ten
    newlines), and the cell in row [i], column [j] is drawn at line
    [i + i div 3], column [2 * (j + j div 3)] of it, as its digit, or as
    a dash when it is empty. *)
Theorem str_shows_cells o i j :
  shape_ok (values o) → range_ok (values o) → plain o →
  0 ≤ i < 9 → 0 ≤ j < 9 →
  ∃ s, __str__ o = Ok s ∧ length s = 241%nat
    ∧ s !! cell_offset i j = Some (glyph (cell (values o) i j)).
Proof.
  intros Hp Hrange Hplain Hi Hj.
  destruct (str_cells o Hp Hrange Hplain) as (s & Hs & Hl & Hcells).
  exists s. split; [done|]. split; [done|]. by apply Hcells.
Qed.

Lemma str_shows_cells_witness :
  ∃ s, __str__ (of_objects (ints one_clue_solution)) = Ok s ∧ length s = 241%nat
    ∧ s !! cell_offset 4 7
      = Some (glyph (cell (values (of_objects (ints one_clue_solution))) 4 7)).
Proof.
  apply (str_shows_cells (of_objects (ints one_clue_solution)) 4 7);
    [compute_done..|lia|lia].
Defined.

(** A cell that is the object [True] is drawn as the word: the first line
    and the two rules are then 24 characters long, and the picture has
    250. *)
Example str_True_cell :
  shape_ok (values (of_objects true_corner))
  ∧ range_ok (values (of_objects true_corner))
  ∧ cell (values (of_objects true_corner)) 0 0 = 1
  ∧ ∃ s, __str__ (of_objects true_corner) = Ok s ∧ length s = 250%nat
         ∧ take 5 s = [84; 114; 117; 101; 32]
         ∧ take 25 (drop 69 s) = bar_of 24 ++ [10].
Proof.
  split; [compute_done|]. split; [compute_done|]. split; [reflexivity|].
  eexists. split; [vm_compute; reflexivity|].
  split; [reflexivity|]. split; vm_compute; reflexivity.
Qed.

(** X15.  The frame of the picture, for a grid of nine rows of nine cells
    in [0..9], none of them the object [True]: every line but the last
    ends in a newline; lines 3 and 7 are rules of 21 horizontal bars with
    a crossing in columns 6 and 14; the nine lines of cells have a space
    in every odd column and a vertical bar in columns 6 and 14, under and
    above the crossings. *)
Theorem str_frame o :
  shape_ok (values o) → range_ok (values o) → plain o →
  ∃ s, __str__ o = Ok s
    ∧ (∀ a, 0 ≤ a < 10 → s !! Z.to_nat (22 * a + 21) = Some 10)
    ∧ (∀ a k, a = 3 ∨ a = 7 → 0 ≤ k < 21 →
         s !! Z.to_nat (22 * a + k)
           = Some (if decide (k = 6 ∨ k = 14) then 9532 else 9472))
    ∧ (∀ i k, 0 ≤ i < 9 → 0 ≤ k < 10 →
         s !! Z.to_nat (22 * (i + i `div` 3) + (2 * k + 1)) = Some 32)
    ∧ (∀ i k, 0 ≤ i < 9 → k = 6 ∨ k = 14 →
         s !! Z.to_nat (22 * (i + i `div` 3) + k) = Some 9474).
Proof. apply str_separators. Qed.

Lemma str_frame_witness :
  ∃ s, __str__ (of_objects false_corner) = Ok s
    ∧ (∀ a, 0 ≤ a < 10 → s !! Z.to_nat (22 * a + 21) = Some 10)
    ∧ (∀ a k, a = 3 ∨ a = 7 → 0 ≤ k < 21 →
         s !! Z.to_nat (22 * a + k)
           = Some (if decide (k = 6 ∨ k = 14) then 9532 else 9472))
    ∧ (∀ i k, 0 ≤ i < 9 → 0 ≤ k < 10 →
         s !! Z.to_nat (22 * (i + i `div` 3) + (2 * k + 1)) = Some 32)
    ∧ (∀ i k, 0 ≤ i < 9 → k = 6 ∨ k = 14 →
         s !! Z.to_nat (22 * (i + i `div` 3) + k) = Some 9474).
Proof. apply (str_frame (of_objects false_corner)); compute_done. Defined.

(** X16.  The picture determines the grid: two grids of nine rows of nine
    cells in [0..9], the cells integers or [bool]s, that are drawn alike
    have the same table of values. *)
Theorem str_injective p q :
  shape_ok (values p) → range_ok (values p) →
  shape_ok (values q) → range_ok (values q) →
  __str__ p = __str__ q → table (values p) = table (values q).
Proof.
  intros Hp Hrp Hq Hrq Heq.
  destruct (obj_rows p Hp Hrp) as [Hreadp Hokp].
  destruct (obj_rows q Hq Hrq) as [Hreadq Hokq].
  unfold __str__ in Heq. rewrite Hreadp, Hreadq in Heq.
  cbn [mbind result_bind] in Heq.
  rewrite !table_values. by apply str_rows_inj.
Qed.

Lemma str_injective_witness :
  table (values (of_objects false_corner))
  = table (values (of_objects (ints empty_table))).
Proof.
  apply (str_injective (of_objects false_corner) (of_objects (ints empty_table)));
    [compute_done..|vm_compute; reflexivity].
Defined.

(** ** Moves and the rules *)

(** A write that passed the check keeps the rule of no repeated digit. *)
Lemma written_consistent p row col v a cells :
  shape_ok p → distinct_rows p → consistent p →
  0 ≤ row < 9 → 0 ≤ col < 9 →
  data p !! Z.to_nat row = Some a → heap p !! a = Some cells →
  length cells = 9%nat →
  check_cells p row col v = true →
  consistent (written p a cells (Z.to_nat col) v).
Proof.
  intros Hp Hnd Hcons Hr Hc Ha Hcells Hl Hcheck.
  rewrite check_cells_true in Hcheck by done.
  rewrite consistent_iff in Hcons |- *.
  intros i j i' j' Hi Hj Hi' Hj' Hne Hs.
  rewrite !(written_cell_distinct p row col v a cells) by done.
  destruct (decide (i = row ∧ j = col)) as [[-> ->]|Hn1];
    destruct (decide (i' = row ∧ j' = col)) as [[-> ->]|Hn2].
  - done.
  - intros _ Heq. by apply (Hcheck i' j' Hi' Hj' (scanned_sym _ _ Hs)).
  - intros _ Heq. by apply (Hcheck i j Hi Hj Hs).
  - by apply Hcons.
Qed.

(** X17.  A move that [__setitem__] accepts keeps the rules: on a grid
    whose nine rows are distinct lists and in which no digit occurs twice
    in a row, a column or a block, the grid after a successful
    [self[row, col] = value] has no digit twice in a row, a column or a
    block either, whatever the integer [value] is. *)
Theorem setitem_keeps_rules p row col value p' :
  shape_ok p → distinct_rows p → consistent p →
  0 ≤ row < 9 → 0 ≤ col < 9 →
  __setitem__ p (row, col) value = (Ok tt, p') →
  consistent p' ∧ distinct_rows p' ∧ cell p' row col = value.
Proof.
  intros Hp Hnd Hcons Hr Hc.
  destruct (setitem_in_range p row col value Hp Hr Hc)
    as (a & cells & Ha & Hcells & Hl & ->).
  destruct (check_cells p row col value) eqn:Hcheck; [|done].
  intros [= <-]. split; [by apply (written_consistent p row col)|].
  split; [done|].
  rewrite (written_cell_distinct p row col value a cells) by done.
  by rewrite decide_True.
Qed.

Lemma setitem_keeps_rules_witness :
  consistent (__setitem__ (of_table one_clue) (4, 4) 5).2
  ∧ distinct_rows (__setitem__ (of_table one_clue) (4, 4) 5).2
  ∧ cell (__setitem__ (of_table one_clue) (4, 4) 5).2 4 4 = 5.
Proof.
  destruct (__setitem__ (of_table one_clue) (4, 4) 5) as [r p'] eqn:E.
  assert (r = Ok tt) as -> by (revert E; vm_compute; congruence).
  apply (setitem_keeps_rules (of_table one_clue) 4 4 5 p');
    [compute_done|compute_done|compute_done|lia|lia|exact E].
Defined.

(** With one row object in all nine places the same move writes a whole
    column, and the rule is broken. *)
Example setitem_shared_rows_breaks_rules :
  consistent shared_rows
  ∧ (__setitem__ shared_rows (0, 0) 7).1 = Ok tt
  ∧ ¬ consistent (__setitem__ shared_rows (0, 0) 7).2.
Proof. repeat split; compute_done. Qed.

(** X18.  [solve] twice is [solve] once: after a [solve] that returned,
    on a puzzle that obeys the rules, a second [solve] returns and leaves
    the grid as the first one made it. *)
Theorem solve_idempotent fuel fuel' p q :
  shape_ok p → range_ok p → distinct_rows p → consistent p →
  solve fuel p = Some (Ok tt, q) → (82 ≤ fuel')%nat →
  solve fuel' q = Some (Ok tt, q).
Proof.
  intros Hp Hrange Hnd Hcons. unfold solve at 1.
  destruct (_solve_puzzle fuel p 0 0) as [[[s|]|e]|] eqn:Hs; [|done..].
  intros [= <-] Hfuel.
  destruct (solve_puzzle_sound fuel p 0 0 s) as [Hinv Hf]; try done.
  { apply filled_before_start. }
  { left. lia. }
  replace (mkPuzzle (data s) (heap s)) with s by by destruct s.
  assert (_solve_puzzle fuel' s 0 0 = Some (Ok (Solution s))) as Hs'.
  { apply solve_puzzle_full; [apply Hinv| |left; lia|lia].
    apply full_iff. intros i j Hi Hj. apply Hf; [done..|]. lia. }
  unfold solve. rewrite Hs'. by destruct s.
Qed.

Lemma solve_idempotent_witness :
  solve 82 (of_table one_clue_solution) = Some (Ok tt, of_table one_clue_solution).
Proof.
  apply (solve_idempotent 82 82 (of_table one_clue) (of_table one_clue_solution));
    [compute_done..|vm_compute; reflexivity|lia].
Defined.
